(** * Column-mapping engine of the Lead Navigator backend

    A shallow embedding of [backend/ai_assistant.py], section
    "COLUMN MAPPING FUNCTIONS": [suggest_column_mapping],
    [_standard_fields], [_extract_json], [_fallback_mapping],
    [_best_match] and [_infer_content], together with the parts of the
    Python standard library they call ([str] methods, two [re]
    functions and [difflib.SequenceMatcher.ratio]).

    Conventions of the embedding.
    - A Python [str] is a [string]; one [ascii] stands for one
      character, so the development speaks about ASCII text.
    - A Python function that may raise returns a [result].
    - A [dict] is a [gmap]; where the iteration order of a dict matters
      (the keyword table) it is an association list.
    - The float returned by [SequenceMatcher.ratio] is the correctly
      rounded quotient of two small integers; it is kept as the exact
      rational [Q], and the comparisons [score > 0.82] and
      [score > best_score] are decided on the rationals. Correct
      rounding is monotone and two distinct quotients with denominators
      below [10^7] are further apart than a double can blur, so both
      comparisons agree with the floating-point ones on every header of
      realistic length. *)

From Stdlib Require Import Ascii QArith.
From stdpp Require Import gmap strings list.

Close Scope Q_scope.

(** ** Python values and exceptions *)

Inductive exn : Type :=
  | IndexError
  | AttributeError
  | ExternalError.

Inductive result (A : Type) : Type :=
  | Ok (a : A)
  | Raise (e : exn).

Arguments Ok {A} a.
Arguments Raise {A} e.

(** [result] is a monad; stdpp's [x ← r; k] sequences two steps and
    stops at the first exception. *)
Global Instance result_ret : MRet result := λ A a, Ok a.
Global Instance result_bind : MBind result := λ A B k r,
  match r with
  | Ok a => k a
  | Raise e => Raise e
  end.
Global Instance result_fmap : FMap result := λ A B f r,
  match r with
  | Ok a => Ok (f a)
  | Raise e => Raise e
  end.

(** What [json.loads] can build. A [PyDict] lists its items; a key is
    looked up from the front. *)
#[warnings="-register-all"]
Inductive pyval : Type :=
  | PyNone
  | PyBool (b : bool)
  | PyInt (z : Z)
  | PyFloat (repr : string)
  | PyStr (s : string)
  | PyList (l : list pyval)
  | PyDict (items : list (string * pyval)).

(** ** [str] methods *)

Module Str.

Definition code (c : ascii) : nat := nat_of_ascii c.

Definition is_upper (c : ascii) : bool := (65 <=? code c) && (code c <=? 90).
Definition is_lower (c : ascii) : bool := (97 <=? code c) && (code c <=? 122).
Definition is_digit (c : ascii) : bool := (48 <=? code c) && (code c <=? 57).
Definition is_alnum (c : ascii) : bool := is_upper c || is_lower c || is_digit c.

(** Whitespace as [str.strip] and the pattern [\s] see it on ASCII:
    tab, LF, VT, FF, CR, the separators 0x1c-0x1f and the space. *)
Definition is_space (c : ascii) : bool :=
  ((9 <=? code c) && (code c <=? 13)) || ((28 <=? code c) && (code c <=? 32)).

Definition lower_char (c : ascii) : ascii :=
  if is_upper c then ascii_of_nat (code c + 32) else c.

Fixpoint map (f : ascii → ascii) (s : string) : string :=
  match s with
  | EmptyString => EmptyString
  | String c s' => String (f c) (map f s')
  end.

Fixpoint filter (p : ascii → bool) (s : string) : string :=
  match s with
  | EmptyString => EmptyString
  | String c s' => if p c then String c (filter p s') else filter p s'
  end.

(** [s.lower()] *)
Definition lower (s : string) : string := map lower_char s.

(** [needle in hay] *)
Fixpoint contains (needle hay : string) : bool :=
  String.prefix needle hay ||
  match hay with
  | EmptyString => false
  | String _ hay' => contains needle hay'
  end.

(** [s.split(sep)] for a non-empty [sep]: the pieces between the
    occurrences of [sep], scanned from the left. [cur] holds the
    current piece reversed and [skip] counts the characters of an
    occurrence still to be passed over. *)
Fixpoint split_go (sep : string) (skip : nat) (cur : string) (s : string)
    : list string :=
  match s with
  | EmptyString => [String.rev cur]
  | String c s' =>
      match skip with
      | S skip' => split_go sep skip' cur s'
      | 0 =>
          if String.prefix sep s
          then String.rev cur :: split_go sep (String.length sep - 1) EmptyString s'
          else split_go sep 0 (String c cur) s'
      end
  end.

Definition split (sep s : string) : list string := split_go sep 0 EmptyString s.

Fixpoint lstrip (s : string) : string :=
  match s with
  | String c s' => if is_space c then lstrip s' else s
  | EmptyString => EmptyString
  end.

(** [s.strip()] *)
Definition strip (s : string) : string :=
  String.rev (lstrip (String.rev (lstrip s))).

(** [sep.join(parts)] *)
Fixpoint join (sep : string) (parts : list string) : string :=
  match parts with
  | [] => EmptyString
  | [p] => p
  | p :: rest => p +:+ sep +:+ join sep rest
  end.

End Str.

(** ** The [re] module

    The four patterns of [_infer_content] use literals, the classes
    [\d], [\s] and [[-.\s]], concatenation, alternation, [?], [+] and
    counted repetition of a class. [re.search] is only tested for
    truth, so it is a boolean here: some substring of the text belongs
    to the language of the pattern. Membership is decided with
    derivatives. *)

Module Re.

Inductive regex : Type :=
  | Empty
  | Eps
  | Class (p : ascii → bool)
  | Seq (r1 r2 : regex)
  | Alt (r1 r2 : regex)
  | Star (r : regex).

Definition Lit (c : ascii) : regex := Class (Ascii.eqb c).
Definition Opt (r : regex) : regex := Alt Eps r.
Definition Plus (r : regex) : regex := Seq r (Star r).

(** [r{n}] *)
Fixpoint Rep (n : nat) (r : regex) : regex :=
  match n with
  | 0 => Eps
  | S n' => Seq r (Rep n' r)
  end.

Fixpoint nullable (r : regex) : bool :=
  match r with
  | Empty => false
  | Eps => true
  | Class _ => false
  | Seq r1 r2 => nullable r1 && nullable r2
  | Alt r1 r2 => nullable r1 || nullable r2
  | Star _ => true
  end.

Fixpoint deriv (c : ascii) (r : regex) : regex :=
  match r with
  | Empty => Empty
  | Eps => Empty
  | Class p => if p c then Eps else Empty
  | Seq r1 r2 =>
      if nullable r1
      then Alt (Seq (deriv c r1) r2) (deriv c r2)
      else Seq (deriv c r1) r2
  | Alt r1 r2 => Alt (deriv c r1) (deriv c r2)
  | Star r1 => Seq (deriv c r1) (Star r1)
  end.

(** Some prefix of [s] matches [r]. *)
Fixpoint match_prefix (r : regex) (s : string) : bool :=
  nullable r ||
  match s with
  | EmptyString => false
  | String c s' => match_prefix (deriv c r) s'
  end.

(** [bool(re.search(r, s))] *)
Fixpoint search (r : regex) (s : string) : bool :=
  match_prefix r s ||
  match s with
  | EmptyString => false
  | String _ s' => search r s'
  end.

Definition d : regex := Class Str.is_digit.
Definition sep : regex :=
  Class (fun c => Ascii.eqb c "-" || Ascii.eqb c "." || Str.is_space c).

End Re.

(** ** [difflib.SequenceMatcher]

    [SequenceMatcher(None, a, b).ratio()], following CPython's
    [difflib.py]. With [isjunk = None] the junk set is empty, so the two
    loops of [find_longest_match] that absorb junk never run and are left
    out; the automatic junk heuristic ([autojunk], on by default) stays:
    it hides the popular elements of a long [b] from the index [b2j]. *)

Module difflib.
Section SequenceMatcher.

Context {A : Type} `{EqDecision A}.
Variables a b : list A.

Definition Match : Type := nat * nat * nat.

(** *** [__chain_b] *)

(** The positions of [elt] in a list whose first element has index
    [i], in increasing order. *)
Fixpoint indices_from (i : nat) (l : list A) (elt : A) : list nat :=
  match l with
  | [] => []
  | x :: l' =>
      if decide (x = elt)
      then i :: indices_from (S i) l' elt
      else indices_from (S i) l' elt
  end.

(** [n >= 200] and [len(idxs) > n // 100 + 1] *)
Definition popular (elt : A) : bool :=
  (200 <=? length b) &&
  (length b / 100 + 1 <? length (indices_from 0 b elt)).

(** [b2j.get(elt, nothing)] *)
Definition b2j (elt : A) : list nat :=
  if popular elt then [] else indices_from 0 b elt.

(** *** [find_longest_match] *)

(** [j2len.get(j-1, 0)]; for [j = 0] the key is [-1], never present. *)
Definition j2lenget (j2len : gmap nat nat) (j : nat) : nat :=
  match j with
  | 0 => 0
  | S j' => default 0 (j2len !! j')
  end.

(** The inner loop [for j in b2j.get(a[i], nothing)]. The new start
    [i-k+1] is written [i + 1 - k], which is the same number since
    [k <= i + 1] (lemma [scan_j_inv]); likewise for [j]. *)
Fixpoint scan_j (i blo bhi : nat) (j2len : gmap nat nat) (js : list nat)
    (newj2len : gmap nat nat) (best : Match) : gmap nat nat * Match :=
  match js with
  | [] => (newj2len, best)
  | j :: js' =>
      if j <? blo then scan_j i blo bhi j2len js' newj2len best
      else if bhi <=? j then (newj2len, best)
      else
        let k := j2lenget j2len j + 1 in
        let best' := if best.2 <? k then (i + 1 - k, j + 1 - k, k) else best in
        scan_j i blo bhi j2len js' (<[j := k]> newj2len) best'
  end.

(** The outer loop [for i in range(alo, ahi)]. *)
Fixpoint scan_i (blo bhi : nat) (range : list nat) (j2len : gmap nat nat)
    (best : Match) : Match :=
  match range with
  | [] => best
  | i :: range' =>
      let js := match a !! i with Some x => b2j x | None => [] end in
      let '(newj2len, best') := scan_j i blo bhi j2len js ∅ best in
      scan_i blo bhi range' newj2len best'
  end.

(** [a[i] == b[j]] *)
Definition same (i j : nat) : bool :=
  match a !! i, b !! j with
  | Some x, Some y => bool_decide (x = y)
  | _, _ => false
  end.

(** [while besti > alo and bestj > blo and a[besti-1] == b[bestj-1]],
    by recursion on [besti], which the loop decrements. *)
Fixpoint extend_left (alo blo : nat) (besti bestj bestsize : nat) : Match :=
  match besti with
  | 0 => (besti, bestj, bestsize)
  | S i' =>
      if (alo <? besti) && (blo <? bestj) && same i' (bestj - 1)
      then extend_left alo blo i' (bestj - 1) (bestsize + 1)
      else (besti, bestj, bestsize)
  end.

(** [while besti+bestsize < ahi and bestj+bestsize < bhi and
    a[besti+bestsize] == b[bestj+bestsize]], by recursion on
    [room = ahi - (besti + bestsize)], which is positive exactly when
    the first test passes. *)
Fixpoint extend_right (bhi : nat) (room : nat) (besti bestj bestsize : nat)
    : Match :=
  match room with
  | 0 => (besti, bestj, bestsize)
  | S room' =>
      if (bestj + bestsize <? bhi) && same (besti + bestsize) (bestj + bestsize)
      then extend_right bhi room' besti bestj (bestsize + 1)
      else (besti, bestj, bestsize)
  end.

Definition find_longest_match (alo ahi blo bhi : nat) : Match :=
  let '(besti, bestj, bestsize) :=
    scan_i blo bhi (seq alo (ahi - alo)) ∅ (alo, blo, 0) in
  let '(besti, bestj, bestsize) :=
    extend_left alo blo besti bestj bestsize in
  extend_right bhi (ahi - (besti + bestsize)) besti bestj bestsize.

(** *** [get_matching_blocks]

    The [while queue:] loop. The head of [queue] is the entry that
    [queue.pop()] removes. The loop runs on [fuel]; [None] means the
    fuel ran out, which [blocks_loop_fuel] rules out for the fuel that
    [get_matching_blocks] supplies. The sorting and the merging of
    adjacent blocks that follow the loop keep the sum of the sizes,
    the one thing [ratio] reads, and are not modelled. *)
Fixpoint blocks_loop (fuel : nat) (queue : list (nat * nat * nat * nat))
    (matching_blocks : list Match) : option (list Match) :=
  match queue with
  | [] => Some matching_blocks
  | (alo, ahi, blo, bhi) :: queue =>
      match fuel with
      | 0 => None
      | S fuel' =>
          let '(i, j, k) := find_longest_match alo ahi blo bhi in
          if k =? 0 then blocks_loop fuel' queue matching_blocks
          else
            let queue :=
              if (alo <? i) && (blo <? j) then (alo, i, blo, j) :: queue
              else queue in
            let queue :=
              if (i + k <? ahi) && (j + k <? bhi)
              then (i + k, ahi, j + k, bhi) :: queue
              else queue in
            blocks_loop fuel' queue (matching_blocks ++ [(i, j, k)])
      end
  end.

Definition get_matching_blocks : list Match :=
  default [] (blocks_loop (2 * length a + 1) [(0, length a, 0, length b)] []).

(** [_calculate_ratio(matches, length)] *)
Definition _calculate_ratio (matches length : nat) : Q :=
  if length =? 0 then 1%Q
  else Qmake (2 * Z.of_nat matches) (Pos.of_nat length).

Definition ratio : Q :=
  let matches := foldr (fun triple acc => triple.2 + acc) 0 get_matching_blocks in
  _calculate_ratio matches (length a + length b).

(** *** Invariants of the search, used by the proofs below *)

(** Every recorded length is at most [n], the number of elements of
    [a] scanned so far, and fits between [blo] and its key. *)
Definition j2len_ok (blo n : nat) (m : gmap nat nat) : Prop :=
  ∀ j v, m !! j = Some v → v ≤ n ∧ v ≤ j + 1 - blo.

(** The running best is the initial [(alo, blo, 0)] or a block inside
    [a[alo:ua]] and [b[blo:bhi]]. *)
Definition best_ok (alo blo ua bhi : nat) (m : Match) : Prop :=
  let '(bi, bj, bk) := m in
  alo ≤ bi ∧ blo ≤ bj ∧
  ((bk = 0 ∧ bi = alo ∧ bj = blo) ∨ (bi + bk ≤ ua ∧ bj + bk ≤ bhi)).

(** After the right extension the block still lies in the window. *)
Definition block_ok (alo ahi blo bhi : nat) (m : Match) : Prop :=
  let '(i, j, k) := m in
  alo ≤ i ∧ blo ≤ j ∧ (k = 0 ∨ (i + k ≤ ahi ∧ j + k ≤ bhi)).

(** The measure of the queue: every window [a[alo:ahi]] still to be
    searched counts for itself and for the two it may leave. *)
Definition weight (queue : list (nat * nat * nat * nat)) : nat :=
  foldr (fun e acc => 2 * (e.1.1.2 - e.1.1.1) + 1 + acc) 0 queue.

(** The sum of the sizes of a list of blocks, and the room that the
    windows of a queue leave on either side. *)
Definition total (blocks : list Match) : nat :=
  foldr (fun triple acc => triple.2 + acc) 0 blocks.

Definition room_a (queue : list (nat * nat * nat * nat)) : nat :=
  foldr (fun e acc => (e.1.1.2 - e.1.1.1) + acc) 0 queue.

Definition room_b (queue : list (nat * nat * nat * nat)) : nat :=
  foldr (fun e acc => (e.2 - e.1.2) + acc) 0 queue.

End SequenceMatcher.
End difflib.

(** ** The column-mapping functions of [ai_assistant.py] *)

(** A [pd.Series] holds cells; a missing cell ([NaN], which [dropna]
    removes) is [None] and any other cell is given by its [str(v)]. A
    [pd.DataFrame] maps a column label to its series; the labels of a
    frame are distinct, as [pd.read_csv] makes them. *)
Abbreviation Series := (list (option string)).
Abbreviation DataFrame := (gmap string (list (option string))).

(** The dict [{"required": [...], "optional": [...]}]. *)
Record taxonomy : Type := {
  required : list string;
  optional : list string
}.

Definition buyers : taxonomy := {|
  required := ["email"; "name"; "order_date"; "revenue"];
  optional :=
    ["product"; "quantity"; "customer_id"; "phone"; "address"; "city"; "state"; "country";
     "zip_code"; "payment_method"; "order_id"; "status"; "discount"; "tax"; "shipping_cost";
     "net_worth"; "income"; "age_range"; "gender"; "company_name"; "company_revenue";
     "job_title"; "department"; "seniority_level"]
|}.

Definition visitors : taxonomy := {|
  required := ["email"; "visit_date"];
  optional :=
    ["source"; "campaign"; "device"; "page_url"; "session_id"; "referrer";
     "utm_source"; "utm_medium"; "utm_campaign"; "browser"; "os"; "ip_address";
     "location"; "duration"; "event_type"; "pixel_id"; "uuid"; "user_agent"]
|}.

Definition _standard_fields (file_type : string) : result taxonomy :=
  Ok (if bool_decide (file_type = "buyers") then buyers else visitors).

(** [std["required"] + std["optional"]] *)
Definition all_fields_of (std : taxonomy) : list string :=
  required std ++ optional std.

(** [l[i]] *)
Definition index {A : Type} (l : list A) (i : nat) : result A :=
  match l !! i with
  | Some x => Ok x
  | None => Raise IndexError
  end.

Definition _extract_json (text : string) : result string :=
  if Str.contains "```json" text then
    after ← index (Str.split "```json" text) 1;
    inner ← index (Str.split "```" after) 0;
    Ok (Str.strip inner)
  else if Str.contains "```" text then
    after ← index (Str.split "```" text) 1;
    inner ← index (Str.split "```" after) 0;
    Ok (Str.strip inner)
  else Ok (Str.strip text).

(** [\+\d|\d{3}[-.\s]?\d{3}[-.\s]?\d{4}] *)
Definition phone_re : Re.regex :=
  Re.Alt (Re.Seq (Re.Lit "+") Re.d)
         (Re.Seq (Re.Rep 3 Re.d) (Re.Seq (Re.Opt Re.sep)
           (Re.Seq (Re.Rep 3 Re.d) (Re.Seq (Re.Opt Re.sep) (Re.Rep 4 Re.d))))).

(** [\d{4}-\d{2}-\d{2}|\d{2}/\d{2}/\d{4}] *)
Definition date_re : Re.regex :=
  Re.Alt (Re.Seq (Re.Rep 4 Re.d) (Re.Seq (Re.Lit "-")
           (Re.Seq (Re.Rep 2 Re.d) (Re.Seq (Re.Lit "-") (Re.Rep 2 Re.d)))))
         (Re.Seq (Re.Rep 2 Re.d) (Re.Seq (Re.Lit "/")
           (Re.Seq (Re.Rep 2 Re.d) (Re.Seq (Re.Lit "/") (Re.Rep 4 Re.d))))).

(** [\$|\d+k|\d+m] *)
Definition money_re : Re.regex :=
  Re.Alt (Re.Lit "$")
         (Re.Alt (Re.Seq (Re.Plus Re.d) (Re.Lit "k"))
                 (Re.Seq (Re.Plus Re.d) (Re.Lit "m"))).

Definition _infer_content (series : Series) (fields : list string) : option string :=
  let vals := take 5 (omap id series) in
  if bool_decide (vals = []) then None
  else
    let text := Str.lower (Str.join " " vals) in
    if Str.contains "@" text && bool_decide ("email" ∈ fields) then Some "email"
    else if Re.search phone_re text && bool_decide ("phone" ∈ fields) then Some "phone"
    else if Re.search date_re text then
      Some (if bool_decide ("order_date" ∈ fields) then "order_date" else "visit_date")
    else if Re.search money_re text && bool_decide ("revenue" ∈ fields) then Some "revenue"
    else if Str.contains "http" text || Str.contains "www." text then
      Some (if bool_decide ("page_url" ∈ fields) then "page_url" else "referrer")
    else None.

(** [re.sub(r'[^a-z0-9]', '', s.lower())] *)
Definition normalize (s : string) : string :=
  Str.filter (fun c => Str.is_lower c || Str.is_digit c) (Str.lower s).

(** [SequenceMatcher(None, x, y).ratio()] on two strings. *)
Definition similarity (x y : string) : Q :=
  difflib.ratio (String.list_ascii_of_string x) (String.list_ascii_of_string y).

(** [x > y] on scores. *)
Definition Qgtb (x y : Q) : bool :=
  (Qnum y * Zpos (Qden x) <? Qnum x * Zpos (Qden y))%Z.

Definition threshold : Q := (82 # 100)%Q.

(** The loop [for f in fields] of step 1: [inl f] is the early
    [return f], [inr (best_score, best)] the state when the loop ends. *)
Fixpoint fuzzy_pass (clean : string) (fields : list string)
    (best_score : Q) (best : string) : string + Q * string :=
  match fields with
  | [] => inr (best_score, best)
  | f :: fields' =>
      let f_clean := normalize f in
      let score := similarity clean f_clean in
      let '(best_score, best) :=
        if Qgtb score best_score then (score, f) else (best_score, best) in
      if Qgtb score threshold then inl f
      else fuzzy_pass clean fields' best_score best
  end.

(** The dict [boosts], in the order of its literal. *)
Definition boosts : list (string * list string) :=
  [("email", ["email"; "mail"; "sha256"; "hem"]);
   ("phone", ["phone"; "mobile"; "cell"; "number"; "direct"; "wireless"; "landline"]);
   ("name", ["name"; "first"; "last"; "full"]);
   ("address", ["address"; "street"; "addr"]);
   ("city", ["city"; "town"]);
   ("state", ["state"; "province"]);
   ("zip_code", ["zip"; "postal"; "postcode"]);
   ("revenue", ["revenue"; "worth"; "income"; "amount"; "price"]);
   ("company_name", ["company"; "business"; "org"]);
   ("job_title", ["job"; "title"; "role"; "position"]);
   ("age_range", ["age"; "dob"]);
   ("gender", ["gender"; "sex"]);
   ("net_worth", ["net"; "worth"]);
   ("income", ["income"; "salary"])].

(** The loop [for field, kws in boosts.items()] of step 3. *)
Fixpoint keyword_pass (clean : string) (fields : list string)
    (table : list (string * list string)) : option string :=
  match table with
  | [] => None
  | (field, kws) :: table' =>
      if bool_decide (field ∈ fields) && existsb (fun k => Str.contains k clean) kws
      then Some field
      else keyword_pass clean fields table'
  end.

(** Step 2: the guard [sample is not None and col in sample.columns],
    the call of [_infer_content] and the test [if inferred:], which a
    [None] and an empty string both fail. *)
Definition content_pass (col : string) (fields : list string)
    (sample : option DataFrame) : option string :=
  match sample with
  | None => None
  | Some df =>
      match df !! col with
      | None => None
      | Some series =>
          match _infer_content series fields with
          | Some inferred =>
              if bool_decide (inferred = EmptyString) then None else Some inferred
          | None => None
          end
      end
  end.

Definition _best_match (col : string) (fields : list string)
    (sample : option DataFrame) : result string :=
  let clean := normalize col in
  first ← index fields 0;
  match fuzzy_pass clean fields 0%Q first with
  | inl f => Ok f
  | inr (_, best) =>
      match content_pass col fields sample with
      | Some inferred => Ok inferred
      | None =>
          match keyword_pass clean fields boosts with
          | Some field => Ok field
          | None => Ok best
          end
      end
  end.

(** The dict comprehension [{col: ... for col in columns}] and the loop
    [for col in columns: final[col] = ...] both fill a dict from the
    left, one item per column. *)
Fixpoint fill (value : string → result pyval) (columns : list string)
    (final : gmap string pyval) : result (gmap string pyval) :=
  match columns with
  | [] => Ok final
  | col :: columns' =>
      v ← value col;
      fill value columns' (<[col := v]> final)
  end.

Definition _fallback_mapping (columns : list string) (file_type : string)
    (sample : option DataFrame) : result (gmap string pyval) :=
  std ← _standard_fields file_type;
  let all_fields := all_fields_of std in
  fill (fun col => PyStr <$> _best_match col all_fields sample) columns ∅.

(** [ai_map.get(col)]: only a dict has the method. *)
Definition py_get (ai_map : pyval) (col : string) : result pyval :=
  match ai_map with
  | PyDict items =>
      Ok (default PyNone (snd <$> find (fun kv => bool_decide (kv.1 = col)) items))
  | _ => Raise AttributeError
  end.

(** [field in all_fields] for a list of strings. *)
Definition py_in (field : pyval) (all_fields : list string) : bool :=
  match field with
  | PyStr s => bool_decide (s ∈ all_fields)
  | _ => false
  end.

(** What [_build_prompt] formats into the prompt text: the prompt is
    kept as this data, of which the text is a function. *)
Record prompt : Type := {
  prompt_columns : list string;
  prompt_file_type : string;
  prompt_std : taxonomy;
  prompt_sample : option DataFrame
}.

Definition _build_prompt (columns : list string) (file_type : string)
    (std : taxonomy) (sample : option DataFrame) : prompt :=
  {| prompt_columns := columns; prompt_file_type := file_type;
     prompt_std := std; prompt_sample := sample |}.

Section Orchestrator.

(** The environment of the module: the API key read at import time,
    the Gemini client ([genai.GenerativeModel(...)],
    [model.generate_content(prompt, ...)] and [resp.text] in one
    step, any exception of which is a [Raise]) and [json.loads]. *)
Variable GEMINI_API_KEY : option string.
Variable generate_content : prompt → result string.
Variable json_loads : string → result pyval.

(** [not GEMINI_API_KEY] *)
Definition no_api_key : bool :=
  match GEMINI_API_KEY with
  | None => true
  | Some key => bool_decide (key = EmptyString)
  end.

(** The lines of the [try:] block that obtain [ai_map]: the prompt, the
    call of the model, [_extract_json] and [json.loads]. *)
Definition ask_model (columns : list string) (file_type : string)
    (std : taxonomy) (sample_data : option DataFrame) : result pyval :=
  let prompt := _build_prompt columns file_type std sample_data in
  text ← generate_content prompt;
  json_text ← _extract_json text;
  json_loads json_text.

(** [field if field in all_fields else _best_match(col, all_fields,
    sample_data)] with [field = ai_map.get(col)]. *)
Definition validated (all_fields : list string) (sample_data : option DataFrame)
    (ai_map : pyval) (col : string) : result pyval :=
  field ← py_get ai_map col;
  if py_in field all_fields then Ok field
  else PyStr <$> _best_match col all_fields sample_data.

(** The body of the [try:] block. *)
Definition ai_mapping (columns : list string) (file_type : string)
    (sample_data : option DataFrame) : result (gmap string pyval) :=
  std ← _standard_fields file_type;
  let all_fields := all_fields_of std in
  ai_map ← ask_model columns file_type std sample_data;
  fill (validated all_fields sample_data ai_map) columns ∅.

Definition suggest_column_mapping (columns : list string) (file_type : string)
    (sample_data : option DataFrame) : result (gmap string pyval) :=
  if no_api_key then _fallback_mapping columns file_type sample_data
  else
    match ai_mapping columns file_type sample_data with
    | Ok final => Ok final
    | Raise _ => _fallback_mapping columns file_type sample_data
    end.

End Orchestrator.

(** ** [SimpleVectorStore]

    The store keeps, per workspace id, a dict with the keys [buyers] and
    [visitors], each [None] or the summary of the last frame stored
    under it. The summary that [store_data] builds from the frame (row
    and column counts, [_calculate_statistics], [_get_column_summaries])
    and the text that [_format_data_context] lays out from a summary
    stay abstract: [summarize] and [format_context]. A summary is a
    non-empty dict, so where the code tests one for truth only [None]
    fails the test. *)

(** [d[key]] on a dict: the value, or [KeyError]. *)
Inductive getitem_result (A : Type) : Type :=
  | Found (a : A)
  | KeyError (key : string).

Arguments Found {A} a.
Arguments KeyError {A} key.

Definition getitem {A : Type} (d : gmap string A) (key : string) : getitem_result A :=
  match d !! key with
  | Some v => Found v
  | None => KeyError key
  end.

Section VectorStore.

Variable Summary : Type.
Variable summarize : string → DataFrame → result Summary.
Variable format_context : string → Summary → string.

(** [self.workspaces] *)
Abbreviation Workspaces := (gmap Z (gmap string (option Summary))).

(** [store_data]: the new state of [self.workspaces], and whether the
    call returned or raised while it built the summary. *)
Definition store_data (workspaces : Workspaces) (workspace_id : Z)
    (file_type : string) (df : DataFrame) : Workspaces * result unit :=
  let workspaces :=
    match workspaces !! workspace_id with
    | Some _ => workspaces
    | None =>
        <[workspace_id := <["buyers" := None]> (<["visitors" := None]> ∅)]> workspaces
    end in
  match summarize file_type df with
  | Raise e => (workspaces, Raise e)
  | Ok summary =>
      (alter (insert file_type (Some summary)) workspace_id workspaces, Ok ())
  end.

(** The two newlines between the parts of a context. *)
Definition blank_line : string := String "010" (String "010" EmptyString).

Definition get_context (workspaces : Workspaces) (workspace_id : Z)
    (query : string) : getitem_result string :=
  match workspaces !! workspace_id with
  | None => Found "No data available for this workspace."
  | Some workspace_data =>
      match getitem workspace_data "buyers" with
      | KeyError key => KeyError key
      | Found buyers =>
          let context_parts :=
            match buyers with
            | Some summary => [format_context "Buyers" summary]
            | None => []
            end in
          match getitem workspace_data "visitors" with
          | KeyError key => KeyError key
          | Found visitors =>
              let context_parts :=
                match visitors with
                | Some summary => context_parts ++ [format_context "Visitors" summary]
                | None => context_parts
                end in
              if bool_decide (context_parts = [])
              then Found "No data uploaded yet."
              else Found (Str.join blank_line context_parts)
          end
      end
  end.

(** The states of the store: empty when the module is loaded, changed
    by [store_data] only. *)
Inductive reachable : Workspaces → Prop :=
  | reachable_empty : reachable ∅
  | reachable_store workspaces workspace_id file_type df :
      reachable workspaces →
      reachable (store_data workspaces workspace_id file_type df).1.

(** Every workspace of the store has both keys. *)
Definition both_keys (workspaces : Workspaces) : Prop :=
  ∀ workspace_id data,
    workspaces !! workspace_id = Some data →
    is_Some (data !! "buyers") ∧ is_Some (data !! "visitors").

(** The summary stored for a workspace and a file type, if any. *)
Definition stored (workspaces : Workspaces) (workspace_id : Z)
    (file_type : string) : option Summary :=
  match workspaces !! workspace_id with
  | Some data => default None (data !! file_type)
  | None => None
  end.

End VectorStore.

(** ** [query_ai_with_rag]

    The model's reply is a [gemini_response]: for each candidate the
    name of its [finish_reason], if it has one, and what reading
    [response.text] gives. A call that raises an exception [e] is
    [inl (str(e))]. The constant messages are kept byte for byte. *)

Record gemini_response : Type := {
  candidates : list (option string);
  text : string + string
}.

(** The dict that [query_ai_with_rag] returns; a key that a branch
    leaves out is [None]. *)
Record rag_answer : Type := {
  response : string;
  sources : list string;
  context_used : bool;
  error : option string;
  context_length : option nat
}.

Definition MAX_CONTEXT_LENGTH : nat := 2000.

(** [context[:MAX_CONTEXT_LENGTH] + "\n\n[Context truncated for safety]"]
    when the context is longer than the limit. *)
Definition truncate_context (context : string) : string :=
  if MAX_CONTEXT_LENGTH <? String.length context
  then String.substring 0 MAX_CONTEXT_LENGTH context +:+ blank_line
         +:+ "[Context truncated for safety]"
  else context.

Definition rag_prompt (query context : string) : string :=
  "You are a helpful data analyst assistant. Answer the user's question based on the provided data context.

USER QUESTION: " +:+ query +:+ "

DATA CONTEXT:
" +:+ context +:+ "

INSTRUCTIONS:
- Answer based ONLY on the data provided above
- Include specific numbers and statistics when relevant
- If the data doesn't contain information to answer the question, say so clearly
- Be concise but informative
- Format numbers with commas for readability

ANSWER:".

(** The answer of the outer [except Exception as e] branch. *)
Definition rag_failure (message : string) : rag_answer :=
  {| response := "❌ Error: " +:+ message +:+ blank_line +:+
       "Please check:
1. GEMINI_API_KEY is set correctly
2. You have internet connection
3. Data has been uploaded";
     sources := []; context_used := false;
     error := Some message; context_length := None |}.

Section Rag.

Variable GEMINI_API_KEY : option string.
Variable Summary : Type.
Variable format_context : string → Summary → string.
Variable generate_content : string → string + gemini_response.

Definition query_ai_with_rag (workspaces : gmap Z (gmap string (option Summary)))
    (query : string) (workspace_id : Z) : rag_answer :=
  if no_api_key GEMINI_API_KEY then
    {| response := "⚠️ AI assistant is not configured. Please set GEMINI_API_KEY in .env file.";
       sources := []; context_used := false;
       error := None; context_length := None |}
  else
    match get_context Summary format_context workspaces workspace_id query with
    | KeyError key => rag_failure ("'" +:+ key +:+ "'")
    | Found context =>
        let context := truncate_context context in
        match generate_content (rag_prompt query context) with
        | inl message => rag_failure message
        | inr reply =>
            match candidates reply with
            | [] =>
                {| response := "⚠️ The AI response was blocked due to safety filters. Please try rephrasing your question or contact support.";
                   sources := []; context_used := false;
                   error := Some "blocked_by_safety_filters";
                   context_length := None |}
            | candidate :: _ =>
                if bool_decide (candidate = Some "SAFETY") then
                  {| response := "⚠️ Your question triggered content safety filters. Please try asking in a different way.";
                     sources := []; context_used := false;
                     error := Some "safety_block"; context_length := None |}
                else
                  match text reply with
                  | inl message =>
                      {| response := "⚠️ AI response error: " +:+ message +:+
                                     ". Please try a simpler question.";
                         sources := []; context_used := false;
                         error := Some "extraction_failed";
                         context_length := None |}
                  | inr response_text =>
                      {| response := response_text;
                         sources := ["uploaded_data"]; context_used := true;
                         error := None;
                         context_length := Some (String.length context) |}
                  end
            end
        end
    end.

End Rag.

(** ** Saved mappings: [save_column_mapping] and [get_column_mapping]
    of [crud.py], [delete_mapping] of [main.py]

    The table [column_mappings] is the list of its rows in the order of
    their insertion, and [first()] gives the first row that passes the
    filter. The mapping travels as the text that [json.dumps] makes of
    it; [Mapping], [json_dumps] and [json_loads] stay abstract. The
    clock read by [datetime.utcnow()] is the argument [now]. *)

Record mapping_row : Type := {
  row_workspace_id : Z;
  row_file_type : string;
  mapping_json : string;
  created_at : Z
}.

(** The filter [workspace_id == workspace_id, file_type == file_type]. *)
Definition row_matches (workspace_id : Z) (file_type : string)
    (row : mapping_row) : bool :=
  bool_decide (row_workspace_id row = workspace_id) &&
  bool_decide (row_file_type row = file_type).

(** [existing.mapping_json = ...; existing.created_at = ...] on the
    first row that passes the filter. *)
Fixpoint update_first (workspace_id : Z) (file_type : string)
    (json : string) (now : Z) (table : list mapping_row) : list mapping_row :=
  match table with
  | [] => []
  | row :: table' =>
      if row_matches workspace_id file_type row
      then {| row_workspace_id := row_workspace_id row;
              row_file_type := row_file_type row;
              mapping_json := json; created_at := now |} :: table'
      else row :: update_first workspace_id file_type json now table'
  end.

(** [db.delete(existing)] for the first row that passes the filter. *)
Fixpoint delete_first (workspace_id : Z) (file_type : string)
    (table : list mapping_row) : list mapping_row :=
  match table with
  | [] => []
  | row :: table' =>
      if row_matches workspace_id file_type row then table'
      else row :: delete_first workspace_id file_type table'
  end.

Section Crud.

Variable Mapping : Type.
Variable json_dumps : Mapping → string.
Variable json_loads : string → Mapping.

Definition save_column_mapping (table : list mapping_row) (workspace_id : Z)
    (file_type : string) (mapping : Mapping) (now : Z) : list mapping_row :=
  match find (row_matches workspace_id file_type) table with
  | Some existing =>
      update_first workspace_id file_type (json_dumps mapping) now table
  | None =>
      table ++ [{| row_workspace_id := workspace_id; row_file_type := file_type;
                   mapping_json := json_dumps mapping; created_at := now |}]
  end.

Definition get_column_mapping (table : list mapping_row) (workspace_id : Z)
    (file_type : string) : option Mapping :=
  match find (row_matches workspace_id file_type) table with
  | Some mapping => Some (json_loads (mapping_json mapping))
  | None => None
  end.

(** [delete_mapping]: the new table, or [None] for the 404 answer. *)
Definition delete_mapping (table : list mapping_row) (workspace_id : Z)
    (file_type : string) : option (list mapping_row) :=
  match find (row_matches workspace_id file_type) table with
  | Some existing => Some (delete_first workspace_id file_type table)
  | None => None
  end.

(** The tables that the three operations can build from the empty
    one. *)
Inductive table_reachable : list mapping_row → Prop :=
  | table_empty : table_reachable []
  | table_save table workspace_id file_type mapping now :
      table_reachable table →
      table_reachable (save_column_mapping table workspace_id file_type mapping now)
  | table_delete table table' workspace_id file_type :
      table_reachable table →
      delete_mapping table workspace_id file_type = Some table' →
      table_reachable table'.

End Crud.

(** The key of a row. *)
Definition row_key (row : mapping_row) : Z * string :=
  (row_workspace_id row, row_file_type row).

(** [v is not None] *)
Definition is_not_none (v : pyval) : bool :=
  match v with
  | PyNone => false
  | _ => true
  end.

(** [v == ""] *)
Definition is_blank (v : pyval) : bool :=
  match v with
  | PyStr s => bool_decide (s = EmptyString)
  | _ => false
  end.

(** [len([v for v in mapping.values() if v is not None])], the count
    of [get_mapping]. *)
Definition mapped_on_read (mapping : gmap string pyval) : nat :=
  length (filter (fun v => is_not_none v = true) (map_to_list mapping).*2).

(** The number of values that are the empty string. *)
Definition blank_values (mapping : gmap string pyval) : nat :=
  length (filter (fun v => is_blank v = true) (map_to_list mapping).*2).

(** ** The endpoint [suggest_mapping] of [main.py]

    Of the endpoint, the choice of the separator from the decoded head
    of the file and the count of mapped columns in the answer. *)

(** [s.count(c)] for a one-character [c]. *)
Fixpoint count_char (c : ascii) (s : string) : nat :=
  match s with
  | EmptyString => 0
  | String c' s' => (if Ascii.eqb c c' then 1 else 0) + count_char c s'
  end.

(** [max(items, key=lambda x: x[1])]: the first item whose count no
    other item exceeds; [best] is the best item so far. *)
Fixpoint max_by_count (best : ascii * nat) (items : list (ascii * nat))
    : ascii * nat :=
  match items with
  | [] => best
  | item :: items' =>
      max_by_count (if best.2 <? item.2 then item else best) items'
  end.

(** [sep = max({',': sample.count(','), '\t': sample.count('\t'),
    ';': sample.count(';')}.items(), key=lambda x: x[1])[0]] *)
Definition detect_sep (sample : string) : ascii :=
  (max_by_count ("," %char, count_char "," sample)
     [("009"%char, count_char "009" sample);
      (";"%char, count_char ";" sample)]).1.

(** Truth value of a Python value. The zero floats are the ones whose
    [repr] is [0.0] or [-0.0]. *)
Definition py_truthy (v : pyval) : bool :=
  match v with
  | PyNone => false
  | PyBool b => b
  | PyInt z => negb (z =? 0)%Z
  | PyFloat repr => negb (bool_decide (repr = "0.0") || bool_decide (repr = "-0.0"))
  | PyStr s => negb (bool_decide (s = EmptyString))
  | PyList l => negb (bool_decide (length l = 0))
  | PyDict items => negb (bool_decide (length items = 0))
  end.

(** [mapped = len([v for v in mapping.values() if v])] *)
Definition mapped_columns (mapping : gmap string pyval) : nat :=
  length (filter (fun v => py_truthy v = true) (map_to_list mapping).*2).

(** ** Vocabulary of the statements *)

Definition valid_category (file_type : string) : Prop :=
  file_type = "buyers" ∨ file_type = "visitors".

(** The candidate fields of a category: [required + optional] of what
    [_standard_fields] returns. *)
Definition candidate_fields (file_type : string) : list string :=
  match _standard_fields file_type with
  | Ok std => all_fields_of std
  | Raise _ => []
  end.

(** A column without usable sample data: no frame was passed, or the
    frame has no such column, or the column holds no non-null cell. *)
Definition no_sample_data (col : string) (sample : option DataFrame) : Prop :=
  match sample with
  | None => True
  | Some df =>
      match df !! col with
      | None => True
      | Some series => omap id series = []
      end
  end.

(** No character of [s] is a letter or a digit. *)
Definition no_alnum (s : string) : Prop :=
  Forall (fun c => Str.is_alnum c = false) (String.list_ascii_of_string s).

(** No candidate field scores above the threshold against [col]. *)
Definition no_score_crosses (col : string) (fields : list string) : bool :=
  forallb (fun f => negb (Qgtb (similarity (normalize col) (normalize f)) threshold))
          fields.

(** Example frame: a column of e-mail addresses. *)
Definition contact_sample : DataFrame :=
  {[ "contact_info" := [Some "user@domain.com"; Some "jane.doe@corp.io"] ]}.

(** The two values that [_infer_content] returns without looking them
    up in [fields]. *)
Definition unguarded (r : string) : Prop := r = "visit_date" ∨ r = "referrer".

(** Inputs used in the examples: a collaborator that always fails, the
    reply that maps the column [website] to [null] with the dict that
    [json.loads] builds from it, and a frame with one column of URLs. *)
Definition unreachable_model : prompt → result string := fun _ => Raise ExternalError.
Definition no_json : string → result pyval := fun _ => Raise ExternalError.
Definition null_reply : string :=
  "{" +:+ String "034" "website" +:+ String "034" ": null}".
Definition null_for_website : string → result pyval :=
  fun json_text =>
    if bool_decide (json_text = null_reply)
    then Ok (PyDict [("website", PyNone)])
    else Raise ExternalError.
Definition website_sample : option DataFrame :=
  Some {[ "website" := [Some "http://example.com"] ]}.

(** No character of [s] is a backtick. *)
Definition no_backtick (s : string) : Prop :=
  Forall (fun c => c ≠ "`"%char) (String.list_ascii_of_string s).

(** The fuzzy score of a candidate field against a normalized column
    name, as the loop of [_best_match] computes it. *)
Definition score (clean f : string) : Q := similarity clean (normalize f).

(** The example frame as an optional argument. *)
Definition contact_sample_opt : option DataFrame := Some contact_sample.

(** Example instances of the abstract parts of the store: a summary
    that is the number of columns of the frame, laid out as the label
    of the part alone. *)
Definition count_columns : string → DataFrame → result nat :=
  fun _ df => Ok (size df).
Definition label_only : string → nat → string := fun data_type _ => data_type.

(** * Properties *)

(** ** [difflib]: the block found lies in the window, and the queue
    loop ends within its fuel *)

Module difflib_facts.
Section Facts.

Context {A : Type} `{EqDecision A}.
Variables a b : list A.

Import difflib.

Lemma best_ok_mono alo blo ua ua' bhi m :
  ua ≤ ua' → best_ok alo blo ua bhi m → best_ok alo blo ua' bhi m.
Proof. destruct m as [[bi bj] bk]. unfold best_ok. lia. Qed.

Lemma j2lenget_bound blo n j2len j :
  j2len_ok blo n j2len → blo ≤ j →
  j2lenget j2len j ≤ n ∧ j2lenget j2len j ≤ j - blo.
Proof.
  intros Hok Hj. destruct j as [|j']; simpl; [lia|].
  destruct (j2len !! j') as [v|] eqn:E; simpl; [|lia].
  destruct (Hok _ _ E). lia.
Qed.

Lemma scan_j_inv alo i blo bhi j2len js :
  alo ≤ i → j2len_ok blo (i - alo) j2len →
  ∀ newj2len best,
    j2len_ok blo (i + 1 - alo) newj2len →
    best_ok alo blo (i + 1) bhi best →
    j2len_ok blo (i + 1 - alo) (scan_j i blo bhi j2len js newj2len best).1 ∧
    best_ok alo blo (i + 1) bhi (scan_j i blo bhi j2len js newj2len best).2.
Proof.
  intros Hi Hold. induction js as [|j js IH]; intros newj2len best Hnew Hbest;
    simpl; [done|].
  destruct (Nat.ltb_spec j blo) as [|Hlo]; [by apply IH|].
  destruct (Nat.leb_spec bhi j) as [|Hhi]; [done|].
  destruct (j2lenget_bound blo (i - alo) j2len j Hold Hlo) as [Hk1 Hk2].
  apply IH.
  - intros j' v. rewrite lookup_insert. case_decide; [|by apply Hnew].
    intros [= <-]. subst j'. lia.
  - destruct best as [[bi bj] bk]; simpl.
    destruct (Nat.ltb_spec bk (j2lenget j2len j + 1)); [|done].
    unfold best_ok. lia.
Qed.

Lemma scan_i_inv alo blo bhi n :
  ∀ i j2len best,
    alo ≤ i → j2len_ok blo (i - alo) j2len → best_ok alo blo i bhi best →
    best_ok alo blo (i + n) bhi (scan_i a b blo bhi (seq i n) j2len best).
Proof.
  induction n as [|n IH]; intros i j2len best Hi Hj Hb; simpl.
  - by rewrite Nat.add_0_r.
  - set (js := match a !! i with Some x => b2j b x | None => [] end).
    destruct (scan_j_inv alo i blo bhi j2len js Hi Hj ∅ best) as [Hj' Hb'].
    + intros j v. by rewrite lookup_empty.
    + eapply best_ok_mono; [|done]. lia.
    + destruct (scan_j i blo bhi j2len js ∅ best) as [newj2len best'].
      simpl in *. replace (i + S n) with (S i + n) by lia.
      apply IH; [lia| |].
      * by replace (S i - alo) with (i + 1 - alo) by lia.
      * by replace (S i) with (i + 1) by lia.
Qed.

Lemma extend_left_inv alo blo ua bhi :
  ∀ bi bj bk,
    best_ok alo blo ua bhi (bi, bj, bk) →
    best_ok alo blo ua bhi (extend_left a b alo blo bi bj bk).
Proof.
  induction bi as [|i' IH]; intros bj bk Hb; simpl; [done|].
  destruct (_ && _) eqn:E; [|done].
  apply andb_prop in E as [E _]. apply andb_prop in E as [E1 E2].
  apply Nat.ltb_lt in E1, E2.
  apply IH. unfold best_ok in *. lia.
Qed.

Lemma extend_right_inv alo ahi blo bhi bi bj :
  alo ≤ bi → blo ≤ bj →
  ∀ room bk,
    room ≤ ahi - (bi + bk) →
    bk = 0 ∨ (bi + bk ≤ ahi ∧ bj + bk ≤ bhi) →
    block_ok alo ahi blo bhi (extend_right a b bhi room bi bj bk).
Proof.
  intros Hi Hj. induction room as [|room IH]; intros bk Hroom Hk; simpl.
  - unfold block_ok. lia.
  - destruct (_ && _) eqn:E; [|unfold block_ok; lia].
    apply andb_prop in E as [E _]. apply Nat.ltb_lt in E.
    apply IH; lia.
Qed.

Theorem find_longest_match_in_window alo ahi blo bhi :
  block_ok alo ahi blo bhi (find_longest_match a b alo ahi blo bhi).
Proof.
  unfold find_longest_match.
  pose proof (scan_i_inv alo blo bhi (ahi - alo) alo ∅ (alo, blo, 0)) as Hscan.
  destruct (scan_i a b blo bhi (seq alo (ahi - alo)) ∅ (alo, blo, 0))
    as [[bi bj] bk].
  assert (best_ok alo blo (alo + (ahi - alo)) bhi (bi, bj, bk)) as Hb.
  { apply Hscan; [lia| |].
    - intros j v. by rewrite lookup_empty.
    - unfold best_ok. lia. }
  apply (extend_left_inv alo blo _ bhi) in Hb.
  destruct (extend_left a b alo blo bi bj bk) as [[bi' bj'] bk'].
  unfold best_ok in Hb.
  apply (extend_right_inv alo ahi blo bhi); lia.
Qed.

Lemma blocks_loop_fuel fuel :
  ∀ queue blocks, weight queue ≤ fuel →
    is_Some (blocks_loop a b fuel queue blocks).
Proof.
  induction fuel as [|fuel IH]; intros queue blocks Hw.
  - destruct queue as [|[[[alo ahi] blo] bhi] queue]; simpl in *; [eauto|lia].
  - destruct queue as [|[[[alo ahi] blo] bhi] queue]; simpl in *; [eauto|].
    pose proof (find_longest_match_in_window alo ahi blo bhi) as Hm.
    destruct (find_longest_match a b alo ahi blo bhi) as [[i j] k].
    unfold block_ok in Hm.
    destruct (Nat.eqb_spec k 0) as [|Hk]; [apply IH; lia|].
    apply IH.
    destruct ((alo <? i) && (blo <? j));
      destruct ((i + k <? ahi) && (j + k <? bhi)); simpl; lia.
Qed.

(** [get_matching_blocks] is the list the loop ends with. *)
Theorem get_matching_blocks_terminates :
  blocks_loop a b (2 * length a + 1) [(0, length a, 0, length b)] []
  = Some (get_matching_blocks a b).
Proof.
  unfold get_matching_blocks.
  destruct (blocks_loop_fuel (2 * length a + 1) [(0, length a, 0, length b)] [])
    as [blocks ->]; [simpl; lia|done].
Qed.

End Facts.
End difflib_facts.

(** ** The library models on the examples of their documentation *)

Example find_longest_match_doc :
  difflib.find_longest_match
    (String.list_ascii_of_string " abcd") (String.list_ascii_of_string "abcd abcd")
    0 5 0 9 = (0, 4, 5).
Proof. by vm_compute. Qed.

Example find_longest_match_none :
  difflib.find_longest_match
    (String.list_ascii_of_string "ab") (String.list_ascii_of_string "c")
    0 2 0 1 = (0, 0, 0).
Proof. by vm_compute. Qed.

Example get_matching_blocks_doc :
  difflib.get_matching_blocks
    (String.list_ascii_of_string "abxcd") (String.list_ascii_of_string "abcd")
  = [(0, 0, 2); (3, 2, 2)].
Proof. by vm_compute. Qed.

Example ratio_doc : Qeq (similarity "abcd" "bcde") (3 # 4)%Q.
Proof. by vm_compute. Qed.

Example normalize_header :
  normalize "E-Mail_Address" = "emailaddress" ∧
  normalize "email address" = "emailaddress" ∧
  normalize "EMAILADDRESS" = "emailaddress".
Proof. by vm_compute. Qed.

Example patterns_on_samples :
  Re.search phone_re "call 555-123-4567" = true ∧
  Re.search phone_re "+4 units" = true ∧
  Re.search phone_re "55-123-4567" = false ∧
  Re.search date_re "on 2024-01-05" = true ∧
  Re.search date_re "01/05/2024" = true ∧
  Re.search date_re "2024/01/05" = false ∧
  Re.search money_re "about 25k" = true ∧
  Re.search money_re "25 k" = false.
Proof. by vm_compute. Qed.

Example extract_json_fenced :
  _extract_json "Here it is: ```json {} ``` done" = Ok "{}" ∧
  _extract_json "``` [1] ```" = Ok "[1]" ∧
  _extract_json "  {}  " = Ok "{}".
Proof. by vm_compute. Qed.

(** ** The matcher: where its result comes from *)

Lemma fuzzy_pass_inl clean fields :
  ∀ best_score best f,
    fuzzy_pass clean fields best_score best = inl f → f ∈ fields.
Proof.
  induction fields as [|f0 fields IH]; intros best_score best f; simpl; [done|].
  destruct (Qgtb _ best_score); destruct (Qgtb _ threshold);
    first [intros [= ->]; left | intros ?%IH; by right].
Qed.

Lemma fuzzy_pass_inr clean fields :
  ∀ best_score best score r,
    fuzzy_pass clean fields best_score best = inr (score, r) →
    r = best ∨ r ∈ fields.
Proof.
  induction fields as [|f0 fields IH]; intros best_score best score r; simpl.
  - intros [= _ ->]. by left.
  - destruct (Qgtb _ best_score); destruct (Qgtb _ threshold); try done;
      intros [->|?]%IH; auto using list_elem_of_here, list_elem_of_further.
Qed.

Lemma keyword_pass_Some clean fields table field :
  keyword_pass clean fields table = Some field → field ∈ fields.
Proof.
  induction table as [|[f kws] table IH]; simpl; [done|].
  case_bool_decide; simpl; [|done].
  destruct (existsb _ kws); [by intros [= <-]|done].
Qed.

Lemma infer_content_range series fields r :
  _infer_content series fields = Some r →
  r ≠ EmptyString ∧ (r ∈ fields ∨ unguarded r).
Proof.
  unfold _infer_content, unguarded.
  case_bool_decide; [done|].
  destruct (Str.contains "@" _ && _) eqn:E1.
  { apply andb_prop in E1 as [_ ?%bool_decide_eq_true]. intros [= <-]. split; [done|auto]. }
  destruct (Re.search phone_re _ && _) eqn:E2.
  { apply andb_prop in E2 as [_ ?%bool_decide_eq_true]. intros [= <-]. split; [done|auto]. }
  destruct (Re.search date_re _).
  { destruct (bool_decide ("order_date" ∈ fields)) eqn:E3; intros [= <-];
      [apply bool_decide_eq_true in E3|]; (split; [done|auto]). }
  destruct (Re.search money_re _ && _) eqn:E4.
  { apply andb_prop in E4 as [_ ?%bool_decide_eq_true]. intros [= <-]. split; [done|auto]. }
  destruct (Str.contains "http" _ || _); [|done].
  destruct (bool_decide ("page_url" ∈ fields)) eqn:E5; intros [= <-];
    [apply bool_decide_eq_true in E5|]; (split; [done|auto]).
Qed.

Lemma content_pass_range col fields sample r :
  content_pass col fields sample = Some r →
  r ≠ EmptyString ∧ (r ∈ fields ∨ unguarded r).
Proof.
  unfold content_pass. repeat case_match; try done.
  intros [= <-]. eauto using infer_content_range.
Qed.

Lemma content_pass_no_sample col fields sample :
  no_sample_data col sample → content_pass col fields sample = None.
Proof.
  unfold no_sample_data, content_pass. destruct sample as [df|]; [|done].
  destruct (df !! col) as [series|]; [|done].
  intros Hnull. unfold _infer_content. by rewrite Hnull.
Qed.

(** On a non-empty list of fields [_best_match] returns, and what it
    returns is one of the fields unless the content pass answered with
    one of its two unguarded literals. *)
Lemma best_match_returns col fields sample :
  fields ≠ [] →
  ∃ r, _best_match col fields sample = Ok r ∧
       (r ∈ fields ∨ (content_pass col fields sample = Some r ∧ unguarded r)).
Proof.
  destruct fields as [|f0 fields']; [done|]. intros _.
  set (fields := f0 :: fields').
  unfold _best_match. change (index fields 0) with (Ok f0). cbn [mbind result_bind].
  destruct (fuzzy_pass (normalize col) fields 0%Q f0) as [f|[score best]] eqn:Efz.
  { exists f. split; [done|]. left. eauto using fuzzy_pass_inl. }
  destruct (content_pass col fields sample) as [inferred|] eqn:Ect.
  { exists inferred. split; [done|].
    destruct (content_pass_range _ _ _ _ Ect) as [_ [?|?]]; auto. }
  destruct (keyword_pass (normalize col) fields boosts) as [field|] eqn:Ekw.
  { exists field. split; [done|]. left. eauto using keyword_pass_Some. }
  exists best. split; [done|]. left.
  destruct (fuzzy_pass_inr _ _ _ _ _ _ Efz) as [->|?]; [left|done].
Qed.

Lemma best_match_no_sample col fields sample :
  fields ≠ [] → no_sample_data col sample →
  ∃ r, _best_match col fields sample = Ok r ∧ r ∈ fields.
Proof.
  intros Hne Hno. destruct (best_match_returns col fields sample Hne) as (r & Hr & Hin).
  exists r. split; [done|]. destruct Hin as [?|[Hc _]]; [done|].
  by rewrite content_pass_no_sample in Hc.
Qed.

(** ** Filling the mapping *)

Lemma fill_is_Ok value columns :
  (∀ col, col ∈ columns → ∃ v, value col = Ok v) →
  ∀ final, ∃ m, fill value columns final = Ok m.
Proof.
  induction columns as [|c cs IH]; intros Hv final; simpl; [eauto|].
  destruct (Hv c) as [v ->]; [left|]. cbn [mbind result_bind].
  apply IH. intros col ?. apply Hv. by right.
Qed.

Lemma fill_Ok_value value columns :
  ∀ final m, fill value columns final = Ok m →
    ∀ col, col ∈ columns → ∃ v, value col = Ok v.
Proof.
  induction columns as [|c cs IH]; intros final m; cbn [fill].
  - by intros _ col ?%elem_of_nil.
  - destruct (value c) as [v|e] eqn:Ev; cbn [mbind result_bind]; [|done].
    intros Hm col [->|?]%elem_of_cons; eauto.
Qed.

Lemma fill_lookup value columns :
  ∀ final m, fill value columns final = Ok m →
    ∀ col, m !! col = if bool_decide (col ∈ columns)
                      then match value col with Ok v => Some v | Raise _ => None end
                      else final !! col.
Proof.
  induction columns as [|c cs IH]; intros final m; cbn [fill].
  - intros [= <-] col. by rewrite bool_decide_eq_false_2 by apply not_elem_of_nil.
  - destruct (value c) as [v|e] eqn:Ev; cbn [mbind result_bind]; [|done].
    intros Hm col. rewrite (IH _ _ Hm col).
    destruct (decide (col ∈ cs)) as [Hin|Hnin].
    + rewrite !bool_decide_eq_true_2; [done|by right|done].
    + rewrite (bool_decide_eq_false_2 _ Hnin).
      destruct (decide (c = col)) as [->|Hne].
      * rewrite lookup_insert_eq, bool_decide_eq_true_2 by left. by rewrite Ev.
      * rewrite lookup_insert_ne by done.
        rewrite bool_decide_eq_false_2; [done|].
        intros [?|?]%elem_of_cons; congruence.
Qed.

Lemma fill_dom value columns :
  ∀ final m, fill value columns final = Ok m →
    dom m = dom final ∪ list_to_set columns.
Proof.
  induction columns as [|c cs IH]; intros final m; cbn [fill].
  - intros [= <-]. by rewrite list_to_set_nil, (right_id_L ∅ (∪)).
  - destruct (value c) as [v|e]; cbn [mbind result_bind]; [|done].
    intros ->%IH. rewrite dom_insert_L, list_to_set_cons.
    by rewrite (assoc_L (∪) (dom final)), (comm_L (∪) (dom final)).
Qed.

(** ** The two taxonomies *)

Lemma candidate_fields_cases file_type :
  candidate_fields file_type = all_fields_of buyers ∨
  candidate_fields file_type = all_fields_of visitors.
Proof. unfold candidate_fields, _standard_fields. case_bool_decide; auto. Qed.

Lemma candidate_fields_nonempty file_type : candidate_fields file_type ≠ [].
Proof. by destruct (candidate_fields_cases file_type) as [-> | ->]. Qed.

Lemma candidate_fields_no_blank file_type : EmptyString ∉ candidate_fields file_type.
Proof.
  destruct (candidate_fields_cases file_type) as [-> | ->];
    apply (bool_decide_unpack _); vm_compute; exact I.
Qed.

(** ** The orchestrator *)

Section Orchestrator_facts.

Variable GEMINI_API_KEY : option string.
Variable generate_content : prompt → result string.
Variable json_loads : string → result pyval.

Abbreviation suggest :=
  (suggest_column_mapping GEMINI_API_KEY generate_content json_loads).
Abbreviation ask :=
  (ask_model generate_content json_loads).

Lemma fallback_value_Ok file_type sample col :
  ∃ s, PyStr <$> _best_match col (candidate_fields file_type) sample = Ok (PyStr s) ∧
       _best_match col (candidate_fields file_type) sample = Ok s.
Proof.
  destruct (best_match_returns col (candidate_fields file_type) sample) as (r & Hr & _).
  { apply candidate_fields_nonempty. }
  exists r. by rewrite Hr.
Qed.

Lemma fallback_mapping_unfold columns file_type sample :
  _fallback_mapping columns file_type sample =
  fill (fun col => PyStr <$> _best_match col (candidate_fields file_type) sample)
       columns ∅.
Proof. reflexivity. Qed.

Lemma ai_mapping_unfold columns file_type sample :
  ai_mapping generate_content json_loads columns file_type sample =
  (ai_map ← ask columns file_type
              (if bool_decide (file_type = "buyers") then buyers else visitors) sample;
   fill (validated (candidate_fields file_type) sample ai_map) columns ∅).
Proof. reflexivity. Qed.

(** The value stored for a column: the suggestion of the model when it
    is a candidate field, the answer of [_best_match] otherwise. *)
Lemma validated_Ok file_type sample ai_map col v :
  validated (candidate_fields file_type) sample ai_map col = Ok v →
  ∃ s, v = PyStr s ∧
       ((py_get ai_map col = Ok (PyStr s) ∧ s ∈ candidate_fields file_type) ∨
        ((∀ field, py_get ai_map col = Ok field →
                   py_in field (candidate_fields file_type) = false) ∧
         _best_match col (candidate_fields file_type) sample = Ok s)).
Proof.
  unfold validated. destruct (py_get ai_map col) as [field|e]; [|done].
  cbn [mbind result_bind].
  destruct (py_in field _) eqn:Ein.
  - intros [= <-]. destruct field; try done. simpl in Ein.
    apply bool_decide_eq_true in Ein. eauto.
  - destruct (fallback_value_Ok file_type sample col) as (s & -> & Hs).
    intros [= <-]. exists s. split; [done|]. right. split; [|done].
    by intros ? [= <-].
Qed.

(** The mapping is always produced; it has one key per column name, and
    each value is the accepted suggestion or the answer of
    [_best_match]. *)
Lemma suggest_spec columns file_type sample :
  ∃ m, suggest columns file_type sample = Ok m ∧
       dom m = list_to_set columns ∧
       ∀ col, col ∈ columns →
         ∃ s, m !! col = Some (PyStr s) ∧
              (s ∈ candidate_fields file_type ∨
               _best_match col (candidate_fields file_type) sample = Ok s).
Proof.
  assert (∃ m, _fallback_mapping columns file_type sample = Ok m ∧
       dom m = list_to_set columns ∧
       ∀ col, col ∈ columns →
         ∃ s, m !! col = Some (PyStr s) ∧
              (s ∈ candidate_fields file_type ∨
               _best_match col (candidate_fields file_type) sample = Ok s)) as Hfb.
  { rewrite fallback_mapping_unfold.
    destruct (fill_is_Ok
      (fun col => PyStr <$> _best_match col (candidate_fields file_type) sample)
      columns) with (final := (∅ : gmap string pyval)) as [m Hm].
    { intros col _. destruct (fallback_value_Ok file_type sample col) as (s & Hs & _).
      eauto. }
    exists m. split; [exact Hm|]. split.
    { by rewrite (fill_dom _ _ _ _ Hm), dom_empty_L, (left_id_L ∅ (∪)). }
    intros col Hcol. rewrite (fill_lookup _ _ _ _ Hm col).
    rewrite bool_decide_eq_true_2 by done.
    destruct (fallback_value_Ok file_type sample col) as (s & -> & Hs). eauto. }
  unfold suggest_column_mapping.
  destruct (no_api_key GEMINI_API_KEY); [done|].
  destruct (ai_mapping _ _ columns file_type sample) as [m|e] eqn:Eai; [|done].
  rewrite ai_mapping_unfold in Eai.
  destruct (ask_model _ _ _ _ _ _) as [ai_map|e]; [|done].
  cbn [mbind result_bind] in Eai.
  exists m. split; [done|]. split.
  { by rewrite (fill_dom _ _ _ _ Eai), dom_empty_L, (left_id_L ∅ (∪)). }
  intros col Hcol. pose proof (fill_lookup _ _ _ _ Eai col) as Hl.
  rewrite bool_decide_eq_true_2 in Hl by done.
  destruct (fill_Ok_value _ _ _ _ Eai col Hcol) as [v Ev]. rewrite Ev in Hl.
  apply validated_Ok in Ev as (s & -> & [[_ ?]|[_ ?]]); eauto.
Qed.

(** When there is no usable suggestion for a column (no API key, a
    failure anywhere between the call of the model and [json.loads], or
    a reply whose entry for the column is not a candidate field) the
    column gets the answer of [_best_match]. *)
Lemma unusable_suggestion_falls_back columns file_type sample col m :
  suggest columns file_type sample = Ok m →
  col ∈ columns →
  no_api_key GEMINI_API_KEY = true ∨
  (∃ e, ask columns file_type
          (if bool_decide (file_type = "buyers") then buyers else visitors) sample
        = Raise e) ∨
  (∃ ai_map, ask columns file_type
          (if bool_decide (file_type = "buyers") then buyers else visitors) sample
        = Ok ai_map ∧
        ∀ s, py_get ai_map col = Ok (PyStr s) → s ∉ candidate_fields file_type) →
  ∃ s, _best_match col (candidate_fields file_type) sample = Ok s ∧
       m !! col = Some (PyStr s).
Proof.
  intros Hm Hcol Hcase.
  assert (∀ m', _fallback_mapping columns file_type sample = Ok m' →
    ∃ s, _best_match col (candidate_fields file_type) sample = Ok s ∧
         m' !! col = Some (PyStr s)) as Hfb.
  { intros m'. rewrite fallback_mapping_unfold. intros Hm'.
    rewrite (fill_lookup _ _ _ _ Hm' col), bool_decide_eq_true_2 by done.
    destruct (fallback_value_Ok file_type sample col) as (s & -> & Hs). eauto. }
  unfold suggest_column_mapping in Hm.
  destruct (no_api_key GEMINI_API_KEY) eqn:Ekey; [by apply Hfb|].
  rewrite ai_mapping_unfold in Hm.
  destruct Hcase as [?|[[e He]|(ai_map & Hai & Hbad)]]; [done| |].
  - rewrite He in Hm. by apply Hfb.
  - rewrite Hai in Hm. cbn [mbind result_bind] in Hm.
    destruct (fill _ columns ∅) as [m'|e] eqn:Efill; [|by apply Hfb].
    injection Hm as ->.
    destruct (fill_Ok_value _ _ _ _ Efill col Hcol) as [v Ev].
    rewrite (fill_lookup _ _ _ _ Efill col), bool_decide_eq_true_2, Ev by done.
    apply validated_Ok in Ev as (s & -> & [[Hget Hin]|[_ Hs]]); [|eauto].
    by destruct (Hbad s Hget).
Qed.

(** Every value of the mapping is a candidate field or one of the two
    unguarded literals of [_infer_content]; without sample data for the
    column it is a candidate field. *)
Lemma suggest_value_range columns file_type sample m col v :
  suggest columns file_type sample = Ok m →
  m !! col = Some v →
  ∃ s, v = PyStr s ∧ s ≠ EmptyString ∧
       (s ∈ candidate_fields file_type ∨
        (unguarded s ∧ ¬ no_sample_data col sample)).
Proof.
  intros Hm Hv.
  destruct (suggest_spec columns file_type sample) as (m' & Hm' & Hdom & Hval).
  rewrite Hm in Hm'. injection Hm' as <-.
  assert (col ∈ columns) as Hcol.
  { apply (elem_of_list_to_set (C := gset string)). rewrite <- Hdom.
    apply elem_of_dom. eauto. }
  destruct (Hval col Hcol) as (s & Hs & Hr). rewrite Hv in Hs. injection Hs as ->.
  exists s. split; [done|].
  assert (s ∈ candidate_fields file_type ∨
          (unguarded s ∧ ¬ no_sample_data col sample)) as Hrange.
  { destruct Hr as [?|Hbm]; [by left|].
    destruct (best_match_returns col (candidate_fields file_type) sample)
      as (r & Hr & Hin); [apply candidate_fields_nonempty|].
    rewrite Hbm in Hr. injection Hr as <-.
    destruct Hin as [?|[Hc Hu]]; [by left|]. right. split; [done|].
    intros Hno. by rewrite content_pass_no_sample in Hc. }
  split; [|done].
  destruct Hrange as [Hin|[[-> | ->] _]]; [|done..].
  intros ->. by apply (candidate_fields_no_blank file_type).
Qed.

End Orchestrator_facts.

(** * The claims *)

(** C1. For every list of columns and valid category,
    [suggest_column_mapping] returns a mapping whose key set is the set
    of the input columns and whose values are all non-null, non-empty
    strings; for the empty column list it returns the empty mapping.
    This holds for every API key, every behaviour of the model and of
    [json.loads], and every sample. *)
Theorem suggest_column_mapping_total
    (GEMINI_API_KEY : option string) (generate_content : prompt → result string)
    (json_loads : string → result pyval)
    (columns : list string) (file_type : string) (sample_data : option DataFrame) :
  valid_category file_type →
  ∃ m, suggest_column_mapping GEMINI_API_KEY generate_content json_loads
         columns file_type sample_data = Ok m ∧
       dom m = list_to_set columns ∧
       (∀ col v, m !! col = Some v → ∃ s, v = PyStr s ∧ s ≠ EmptyString) ∧
       (columns = [] → m = ∅).
Proof.
  intros _.
  destruct (suggest_spec GEMINI_API_KEY generate_content json_loads
              columns file_type sample_data) as (m & Hm & Hdom & _).
  exists m. split; [done|]. split; [done|]. split.
  - intros col v Hv.
    destruct (suggest_value_range _ _ _ _ _ _ _ _ _ Hm Hv) as (s & -> & Hs & _).
    eauto.
  - intros ->. apply dom_empty_inv_L. by rewrite Hdom.
Qed.

Lemma suggest_column_mapping_total_witness :
  valid_category "buyers" ∧
  ∃ m, suggest_column_mapping None unreachable_model no_json
         ["Email Address"; "cell_no"] "buyers" None = Ok m ∧
       dom m = list_to_set ["Email Address"; "cell_no"] ∧
       (∀ col v, m !! col = Some v → ∃ s, v = PyStr s ∧ s ≠ EmptyString) ∧
       (["Email Address"; "cell_no"] = [] → m = ∅).
Proof.
  split; [by left|].
  apply (suggest_column_mapping_total None unreachable_model no_json
           ["Email Address"; "cell_no"] "buyers" None).
  by left.
Defined.

(** C2. Every value of the mapping returned by
    [suggest_column_mapping] should be a candidate field of the declared
    category. The code breaks this: for a buyers file with a column
    ["website"] whose cells are URLs, no fuzzy score crosses the
    threshold, [_infer_content] reaches its URL rule and, ["page_url"]
    not being a buyers field, returns ["referrer"], which is not a
    buyers field either. *)
Theorem suggest_column_mapping_url_column_of_buyers :
  suggest_column_mapping None unreachable_model no_json
    ["website"] "buyers" website_sample
  = Ok {[ "website" := PyStr "referrer" ]} ∧
  "referrer" ∉ candidate_fields "buyers".
Proof.
  split; [vm_compute; reflexivity|].
  apply (bool_decide_unpack _). vm_compute. exact I.
Qed.

(** C3. [_best_match] should return a member of [candidate_fields]. At
    the same input as for C2 it returns ["referrer"], which is not among
    the buyers fields it was given. *)
Theorem best_match_url_column_of_buyers :
  _best_match "website" (all_fields_of buyers) website_sample = Ok "referrer" ∧
  "referrer" ∉ all_fields_of buyers.
Proof.
  split; [vm_compute; reflexivity|].
  apply (bool_decide_unpack _). vm_compute. exact I.
Qed.

(** C4, as stated: an unknown category makes the lookup fail. It does
    not: ["leads"] is neither category, and the lookup returns the
    visitors taxonomy. *)
Lemma standard_fields_unknown_category :
  ¬ valid_category "leads" ∧
  _standard_fields "leads" = Ok visitors ∧
  ¬ ∃ e, _standard_fields "leads" = Raise e.
Proof.
  split; [by intros [?|?]|]. split; [reflexivity|]. by intros [e ?].
Qed.

(** C4, amended. The lookup never raises: it returns the buyers
    taxonomy for ["buyers"] and the visitors taxonomy for every other
    category, known or not, and the two taxonomies differ. So a
    category that is neither ["buyers"] nor ["visitors"] is answered
    with the visitors taxonomy; rejecting it is left to the caller. *)
Theorem standard_fields_default (file_type : string) :
  (∀ e, _standard_fields file_type ≠ Raise e) ∧
  (file_type = "buyers" → _standard_fields file_type = Ok buyers) ∧
  (file_type ≠ "buyers" → _standard_fields file_type = Ok visitors) ∧
  (¬ valid_category file_type → _standard_fields file_type = Ok visitors) ∧
  buyers ≠ visitors.
Proof.
  unfold _standard_fields. split; [done|].
  split; [intros ->; by rewrite bool_decide_eq_true_2|].
  split; [intros Hne; by rewrite bool_decide_eq_false_2|].
  split; [|done].
  intros Hunknown. rewrite bool_decide_eq_false_2; [done|].
  intros ->. apply Hunknown. by left.
Qed.

Lemma standard_fields_default_witness :
  ("leads" ≠ "buyers" ∧ ¬ valid_category "leads" ∧
   _standard_fields "leads" = Ok visitors) ∧
  _standard_fields "buyers" = Ok buyers ∧
  _standard_fields "visitors" = Ok visitors.
Proof.
  destruct (standard_fields_default "leads") as (_ & _ & Hleads & _).
  destruct (standard_fields_default "buyers") as (_ & Hbuyers & _).
  destruct (standard_fields_default "visitors") as (_ & _ & Hvisitors & _).
  split; [split; [done|split; [by intros [?|?]|by apply Hleads]]|].
  split; [by apply Hbuyers|by apply Hvisitors].
Defined.

(** C5. When the suggestion for a column is unusable the column should
    be resolved by [_best_match] and the output should hold no
    non-taxonomy field name. The first half holds (lemma
    [unusable_suggestion_falls_back]); the second fails through the
    defect of C2: the model answers [null] for the column of a buyers
    file, the column falls back to [_best_match], and the mapping
    holds ["referrer"]. *)
Theorem suggest_column_mapping_null_suggestion :
  suggest_column_mapping (Some "key") (fun _ => Ok null_reply)
    null_for_website ["website"] "buyers" website_sample
  = Ok {[ "website" := PyStr "referrer" ]} ∧
  "referrer" ∉ candidate_fields "buyers".
Proof.
  split; [vm_compute; reflexivity|].
  apply (bool_decide_unpack _). vm_compute. exact I.
Qed.

(** C6, as stated: the mapping has as many entries as the list has
    columns. A repeated column name refutes it: the dict keeps one entry
    per name. *)
Lemma repeated_column_name :
  ∃ m, suggest_column_mapping None unreachable_model no_json
         ["id"; "id"] "buyers" None = Ok m ∧
       size m = 1 ∧ size m ≠ length ["id"; "id"].
Proof.
  eexists. split; [vm_compute; reflexivity|]. split; [reflexivity|].
  vm_compute. lia.
Qed.

(** C6, amended. The mapping has one entry per distinct column name;
    when the column names are pairwise distinct its size is the number
    of input columns. *)
Theorem suggest_column_mapping_size
    (GEMINI_API_KEY : option string) (generate_content : prompt → result string)
    (json_loads : string → result pyval)
    (columns : list string) (file_type : string) (sample_data : option DataFrame) :
  valid_category file_type →
  ∃ m, suggest_column_mapping GEMINI_API_KEY generate_content json_loads
         columns file_type sample_data = Ok m ∧
       size m = size (list_to_set columns : gset string) ∧
       (NoDup columns → size m = length columns).
Proof.
  intros _.
  destruct (suggest_spec GEMINI_API_KEY generate_content json_loads
              columns file_type sample_data) as (m & Hm & Hdom & _).
  exists m. split; [done|].
  assert (size m = size (list_to_set columns : gset string)) as Hsize.
  { by rewrite <- Hdom, size_dom. }
  split; [done|]. intros Hnd. by rewrite Hsize, size_list_to_set.
Qed.

Lemma suggest_column_mapping_size_witness :
  valid_category "visitors" ∧
  ∃ m, suggest_column_mapping None unreachable_model no_json
         ["ip"; "Landing Page"] "visitors" None = Ok m ∧
       size m = size (list_to_set ["ip"; "Landing Page"] : gset string) ∧
       (NoDup ["ip"; "Landing Page"] → size m = length ["ip"; "Landing Page"]).
Proof.
  split; [by right|].
  apply (suggest_column_mapping_size None unreachable_model no_json
           ["ip"; "Landing Page"] "visitors" None).
  by right.
Defined.

(** ** The matcher on particular headers *)

Lemma best_match_steps col fields sample first :
  index fields 0 = Ok first →
  _best_match col fields sample =
  match fuzzy_pass (normalize col) fields 0%Q first with
  | inl f => Ok f
  | inr (_, best) =>
      match content_pass col fields sample with
      | Some inferred => Ok inferred
      | None =>
          match keyword_pass (normalize col) fields boosts with
          | Some field => Ok field
          | None => Ok best
          end
      end
  end.
Proof. intros Hfirst. unfold _best_match. by rewrite Hfirst. Qed.

Lemma prefix_empty s : String.prefix EmptyString s = true.
Proof. by destruct s. Qed.

Lemma prefix_cons c needle c' s :
  String.prefix (String c needle) (String c' s) =
  if ascii_dec c c' then String.prefix needle s else false.
Proof. reflexivity. Qed.

Lemma prefix_app needle x y :
  String.prefix needle x = true → String.prefix needle (x +:+ y) = true.
Proof.
  revert x. induction needle as [|c needle IH]; intros x.
  { intros _. apply prefix_empty. }
  destruct x as [|c' x]; [done|].
  change (String c' x +:+ y) with (String c' (x +:+ y)). rewrite !prefix_cons.
  destruct (ascii_dec c c'); [apply IH|done].
Qed.

Lemma contains_app_l needle x y :
  Str.contains needle x = true → Str.contains needle (x +:+ y) = true.
Proof.
  induction x as [|c x IH]; simpl.
  - rewrite orb_false_r. destruct needle; [|done]. intros _.
    change (EmptyString +:+ y) with y. by destruct y.
  - intros [Hp|Hc]%orb_prop; apply orb_true_intro.
    + left. by apply (prefix_app needle (String c x) y).
    + right. by apply IH.
Qed.

Lemma contains_at_lower s :
  Str.contains "@" s = true → Str.contains "@" (Str.lower s) = true.
Proof.
  induction s as [|c s IH]; [done|]. cbn [Str.contains Str.lower Str.map].
  intros [Hp|Hc]%orb_prop; apply orb_true_intro.
  - left. rewrite prefix_cons in Hp. destruct (ascii_dec "@" c) as [<-|]; [|done].
    change (Str.lower_char "@") with "@"%char. rewrite prefix_cons.
    destruct (ascii_dec "@" "@"); [apply prefix_empty|done].
  - right. by apply IH.
Qed.



Lemma normalize_no_alnum col : no_alnum col → normalize col = EmptyString.
Proof.
  unfold no_alnum, normalize, Str.lower.
  induction col as [|c col IH]; [done|]. cbn [String.list_ascii_of_string Str.map Str.filter].
  intros [Hc Hcol]%Forall_cons. rewrite IH by done.
  revert Hc. by destruct c as [[] [] [] [] [] [] [] []]; vm_compute.
Qed.

(** ** The loop of the fuzzy pass *)

Lemma Qgtb_lt x y : Qgtb x y = true ↔ (y < x)%Q.
Proof. unfold Qgtb, Qlt. apply Z.ltb_lt. Qed.

Lemma Qgtb_le x y : Qgtb x y = false ↔ (x <= y)%Q.
Proof. unfold Qgtb, Qle. apply Z.ltb_ge. Qed.

(** The loop returns early exactly at the first field, in list order,
    whose score is above the threshold. *)
Lemma fuzzy_pass_first_crossing clean fields : ∀ best_score best f,
  fuzzy_pass clean fields best_score best = inl f ↔
  ∃ before after,
    fields = before ++ f :: after ∧
    Qgtb (score clean f) threshold = true ∧
    Forall (fun g => Qgtb (score clean g) threshold = false) before.
Proof.
  induction fields as [|f0 fields IH]; intros best_score best f; cbn [fuzzy_pass].
  { split; [done|]. intros (before & after & Heq & _). by destruct before. }
  fold (score clean f0).
  destruct (Qgtb (score clean f0) best_score);
    destruct (Qgtb (score clean f0) threshold) eqn:Hcross.
  1,3: split;
    [intros [= <-]; exists [], fields; by repeat split
    |intros ([|g before] & after & Heq & Hf & Hall);
       [by injection Heq as ->|];
     injection Heq as -> _; apply Forall_cons in Hall as [Hg _]; congruence].
  all: rewrite IH; split.
  all: try (intros (before & after & -> & Hf & Hall);
            exists (f0 :: before), after; repeat split; [done|by constructor]).
  all: intros ([|g before] & after & Heq & Hf & Hall);
    [injection Heq as -> _; congruence|].
  all: injection Heq as -> ->; apply Forall_cons in Hall as [_ Hall]; eauto.
Qed.

Lemma fuzzy_pass_no_crossing col fields best_score best :
  no_score_crosses col fields = true →
  ∃ s r, fuzzy_pass (normalize col) fields best_score best = inr (s, r).
Proof.
  intros Hcross.
  destruct (fuzzy_pass (normalize col) fields best_score best) as [f|[s r]] eqn:Hfz;
    [|eauto].
  apply fuzzy_pass_first_crossing in Hfz as (before & after & -> & Hf & _).
  unfold no_score_crosses in Hcross. rewrite forallb_app in Hcross.
  cbn [forallb] in Hcross. fold (score (normalize col) f) in Hcross.
  rewrite Hf in Hcross. simpl in Hcross. by rewrite andb_false_r in Hcross.
Qed.






(** C9. A column named exactly ["email"] is mapped to ["email"] by the
    threshold short-circuit of the fuzzy pass: the similarity of the
    normalized name with the field ["email"] is 1, which is above 0.82,
    so the loop returns at ["email"] when it is the first field of the
    list that crosses the threshold, wherever it stands in the list
    and whatever the sample holds. Both taxonomies start with
    ["email"], so this is the result under either category. The rule
    is the first crossing, not the name: a field that crosses the
    threshold and stands before ["email"] is returned instead. *)
Theorem email_threshold_short_circuit
    (before after : list string) (sample : option DataFrame) :
  Forall (fun g => Qgtb (score (normalize "email") g) threshold = false) before →
  Qeq (similarity (normalize "email") (normalize "email")) 1%Q ∧
  Qgtb (similarity (normalize "email") (normalize "email")) threshold = true ∧
  (∀ best_score best,
     fuzzy_pass (normalize "email") (before ++ "email" :: after) best_score best
     = inl "email") ∧
  _best_match "email" (before ++ "email" :: after) sample = Ok "email" ∧
  (∀ g, Qgtb (score (normalize "email") g) threshold = true →
     _best_match "email" (before ++ g :: "email" :: after) sample = Ok g) ∧
  (∀ file_type, valid_category file_type →
     index (candidate_fields file_type) 0 = Ok "email" ∧
     fuzzy_pass (normalize "email") (candidate_fields file_type) 0%Q "email"
     = inl "email" ∧
     _best_match "email" (candidate_fields file_type) sample = Ok "email").
Proof.
  intros Hbefore.
  assert (Qgtb (score (normalize "email") "email") threshold = true) as Hone
    by by vm_compute.
  assert (∀ g rest best_score best,
            Qgtb (score (normalize "email") g) threshold = true →
            fuzzy_pass (normalize "email") (before ++ g :: rest) best_score best
            = inl g) as Hloop.
  { intros g rest best_score best Hg. apply fuzzy_pass_first_crossing. eauto. }
  assert (∀ g rest,
            Qgtb (score (normalize "email") g) threshold = true →
            _best_match "email" (before ++ g :: rest) sample = Ok g) as Hmatch.
  { intros g rest Hg.
    assert (∃ first, index (before ++ g :: rest) 0 = Ok first) as [first Hfirst].
    { destruct before; simpl; eauto. }
    by rewrite (best_match_steps _ _ _ _ Hfirst), Hloop. }
  split; [by vm_compute|]. split; [by vm_compute|].
  split; [intros best_score best; by apply Hloop|].
  split; [by apply Hmatch|]. split; [intros g Hg; by apply Hmatch|].
  intros file_type Hvalid.
  assert (index (candidate_fields file_type) 0 = Ok "email" ∧
          fuzzy_pass (normalize "email") (candidate_fields file_type) 0%Q "email"
          = inl "email") as [Hfirst Hfuzzy].
  { destruct Hvalid as [-> | ->]; (split; [done|by vm_compute]). }
  split; [done|]. split; [done|].
  by rewrite (best_match_steps _ _ _ _ Hfirst), Hfuzzy.
Qed.

Lemma email_threshold_short_circuit_witness :
  _best_match "email" (["name"; "phone"] ++ "email" :: ["e_mail"])
    (Some {[ "email" := [Some "http://example.com"] ]}) = Ok "email" ∧
  _best_match "email" (["name"; "phone"] ++ "e_mail" :: "email" :: ["e_mail"])
    (Some {[ "email" := [Some "http://example.com"] ]}) = Ok "e_mail" ∧
  _best_match "email" (candidate_fields "visitors")
    (Some {[ "email" := [Some "http://example.com"] ]}) = Ok "email".
Proof.
  destruct (email_threshold_short_circuit ["name"; "phone"] ["e_mail"]
              (Some {[ "email" := [Some "http://example.com"] ]}))
    as (_ & _ & _ & Hemail & Hfirst & Htaxonomy).
  - repeat constructor.
  - split; [exact Hemail|]. split; [apply Hfirst; by vm_compute|].
    apply Htaxonomy. by right.
Defined.

(** C10. Under either taxonomy a column whose name has no letter and
    no digit, and which has no sample data, is mapped to the first
    candidate field, ["email"]: the name normalizes to the empty
    string, every fuzzy score is 0 so the running best stays at the
    first field, and no keyword is a substring of the empty string. *)
Theorem blank_header_maps_to_first_field
    (file_type col : string) (sample : option DataFrame) :
  valid_category file_type →
  no_alnum col →
  no_sample_data col sample →
  normalize col = EmptyString ∧
  Forall (fun f => Qeq (similarity EmptyString (normalize f)) 0%Q)
         (candidate_fields file_type) ∧
  fuzzy_pass EmptyString (candidate_fields file_type) 0%Q "email"
  = inr (0%Q, "email") ∧
  keyword_pass EmptyString (candidate_fields file_type) boosts = None ∧
  index (candidate_fields file_type) 0 = Ok "email" ∧
  _best_match col (candidate_fields file_type) sample = Ok "email".
Proof.
  intros Hvalid Hblank Hno.
  pose proof (normalize_no_alnum col Hblank) as Hclean.
  pose proof (content_pass_no_sample col (candidate_fields file_type) sample Hno)
    as Hcontent.
  assert (Forall (fun f => Qeq (similarity EmptyString (normalize f)) 0%Q)
                 (candidate_fields file_type) ∧
          fuzzy_pass EmptyString (candidate_fields file_type) 0%Q "email"
          = inr (0%Q, "email") ∧
          keyword_pass EmptyString (candidate_fields file_type) boosts = None ∧
          index (candidate_fields file_type) 0 = Ok "email")
    as (Hscores & Hfuzzy & Hkw & Hfirst).
  { destruct Hvalid as [-> | ->].
    - split; [|by vm_compute].
      change (candidate_fields "buyers") with (all_fields_of buyers).
      repeat (apply Forall_cons; split; [by vm_compute|]). by apply Forall_nil.
    - split; [|by vm_compute].
      change (candidate_fields "visitors") with (all_fields_of visitors).
      repeat (apply Forall_cons; split; [by vm_compute|]). by apply Forall_nil. }
  repeat split; try done.
  rewrite (best_match_steps _ _ _ _ Hfirst), Hclean, Hfuzzy, Hcontent.
  by rewrite Hkw.
Qed.

Lemma blank_header_maps_to_first_field_witness :
  valid_category "buyers" ∧ no_alnum "$ %" ∧ no_sample_data "$ %" None ∧
  _best_match "$ %" (candidate_fields "buyers") None = Ok "email".
Proof.
  split; [by left|]. split; [by repeat constructor|]. split; [exact I|].
  apply (blank_header_maps_to_first_field "buyers" "$ %" None).
  - by left.
  - by repeat constructor.
  - exact I.
Defined.

(** * Further properties of the code *)

(** ** Strings: appending and reversing *)

Lemma append_cons c s t : String c s +:+ t = String c (s +:+ t).
Proof. reflexivity. Qed.

Lemma append_nil_l s : EmptyString +:+ s = s.
Proof. reflexivity. Qed.

Lemma append_nil_r s : s +:+ EmptyString = s.
Proof. induction s as [|c s IH]; [done|]. by rewrite append_cons, IH. Qed.

Lemma append_assoc s t u : (s +:+ t) +:+ u = s +:+ (t +:+ u).
Proof. induction s as [|c s IH]; [done|]. by rewrite !append_cons, IH. Qed.

Lemma rev_app_append s : ∀ t, String.rev_app s t = String.rev s +:+ t.
Proof.
  unfold String.rev. induction s as [|c s IH]; intros t; [done|]. simpl.
  rewrite (IH (String c t)), (IH (String c EmptyString)).
  by rewrite append_assoc.
Qed.

Lemma rev_cons c s : String.rev (String c s) = String.rev s +:+ String c EmptyString.
Proof. unfold String.rev at 1. simpl. apply rev_app_append. Qed.

Lemma rev_append s t : String.rev (s +:+ t) = String.rev t +:+ String.rev s.
Proof.
  induction s as [|c s IH]; [by rewrite append_nil_l, append_nil_r|].
  by rewrite append_cons, !rev_cons, IH, append_assoc.
Qed.

Lemma rev_rev s : String.rev (String.rev s) = s.
Proof.
  induction s as [|c s IH]; [done|].
  by rewrite rev_cons, rev_append, IH.
Qed.

Lemma length_append s t :
  String.length (s +:+ t) = String.length s + String.length t.
Proof. induction s as [|c s IH]; [done|]. rewrite append_cons. simpl. by rewrite IH. Qed.

Lemma prefix_append_self sep rest : String.prefix sep (sep +:+ rest) = true.
Proof.
  induction sep as [|c sep IH]; [apply prefix_empty|].
  rewrite append_cons, prefix_cons. by destruct (ascii_dec c c).
Qed.

Lemma prefix_inv sep s :
  String.prefix sep s = true → ∃ rest, s = sep +:+ rest.
Proof.
  revert s. induction sep as [|c sep IH]; intros s; [by exists s|].
  destruct s as [|c' s]; [done|]. rewrite prefix_cons.
  destruct (ascii_dec c c') as [<-|]; [|done].
  intros [rest ->]%IH. by exists rest.
Qed.

(** ** [str.split] and [str.join] *)

Lemma split_go_skip sep x : ∀ cur rest,
  Str.split_go sep (String.length x) cur (x +:+ rest) = Str.split_go sep 0 cur rest.
Proof.
  induction x as [|c x IH]; intros cur rest; [done|].
  rewrite append_cons. simpl. apply IH.
Qed.

(** At an occurrence of the separator the current piece is closed and
    the scan resumes behind the occurrence. *)
Lemma split_go_match sep cur rest :
  sep ≠ EmptyString →
  Str.split_go sep 0 cur (sep +:+ rest) =
  String.rev cur :: Str.split_go sep 0 EmptyString rest.
Proof.
  destruct sep as [|c sep]; [done|]. intros _.
  rewrite append_cons. cbn [Str.split_go].
  rewrite <- (append_cons c sep rest), prefix_append_self.
  replace (String.length (String c sep) - 1) with (String.length sep)
    by (cbn [String.length]; lia).
  by rewrite split_go_skip.
Qed.

Lemma split_go_no_match sep cur c s :
  String.prefix sep (String c s) = false →
  Str.split_go sep 0 cur (String c s) = Str.split_go sep 0 (String c cur) s.
Proof. intros Hp. cbn [Str.split_go]. by rewrite Hp. Qed.

Lemma split_go_nil sep cur :
  Str.split_go sep 0 cur EmptyString = [String.rev cur].
Proof. reflexivity. Qed.

Lemma split_go_not_nil sep s : ∀ skip cur, Str.split_go sep skip cur s ≠ [].
Proof.
  induction s as [|c s IH]; intros skip cur; [done|]. cbn [Str.split_go].
  destruct skip; [|apply IH]. destruct (String.prefix sep _); [done|apply IH].
Qed.

Lemma join_cons sep p parts :
  parts ≠ [] → Str.join sep (p :: parts) = p +:+ sep +:+ Str.join sep parts.
Proof. by destruct parts. Qed.

Lemma split_go_join sep : sep ≠ EmptyString →
  ∀ n s cur, String.length s ≤ n →
    Str.join sep (Str.split_go sep 0 cur s) = String.rev cur +:+ s.
Proof.
  intros Hsep. induction n as [|n IH]; intros s cur Hlen.
  { destruct s; [|simpl in Hlen; lia]. by rewrite split_go_nil, append_nil_r. }
  destruct s as [|c s]; [by rewrite split_go_nil, append_nil_r|].
  destruct (String.prefix sep (String c s)) eqn:Hp.
  - apply prefix_inv in Hp as [rest Hrest]. rewrite Hrest, split_go_match by done.
    rewrite join_cons by apply split_go_not_nil.
    rewrite IH; [done|].
    assert (String.length (String c s) = String.length sep + String.length rest)
      as Hl by by rewrite Hrest, length_append.
    destruct sep; [done|]. simpl in *. lia.
  - rewrite split_go_no_match by done. rewrite IH by (simpl in Hlen; lia).
    by rewrite rev_cons, append_assoc.
Qed.

(** [sep.join(s.split(sep)) == s] for a non-empty separator. *)
Theorem join_split sep s :
  sep ≠ EmptyString → Str.join sep (Str.split sep s) = s.
Proof.
  intros Hsep. unfold Str.split.
  by rewrite (split_go_join sep Hsep (String.length s)).
Qed.

Lemma join_split_witness :
  "```" ≠ EmptyString ∧
  Str.join "```" (Str.split "```" "a```json {} ``` b") = "a```json {} ``` b".
Proof. split; [done|]. apply (join_split "```" "a```json {} ``` b"). done. Defined.

(** A text in which the separator occurs splits into at least two
    pieces. *)
Lemma split_go_two sep s : sep ≠ EmptyString →
  ∀ cur, Str.contains sep s = true →
    ∃ p q l, Str.split_go sep 0 cur s = p :: q :: l.
Proof.
  intros Hsep. induction s as [|c s IH]; intros cur.
  { destruct sep; [done|]. discriminate. }
  cbn [Str.contains Str.split_go].
  destruct (String.prefix sep (String c s)) eqn:Hp.
  - intros _.
    destruct (Str.split_go sep (String.length sep - 1) EmptyString s) as [|q l] eqn:E.
    { by apply split_go_not_nil in E. }
    eauto.
  - simpl. apply IH.
Qed.

(** ** [_extract_json] *)

(** [_extract_json] never raises: where it indexes the pieces of a
    split with [1], the fence it split on occurs in the text. *)
Theorem extract_json_returns text : ∃ r, _extract_json text = Ok r.
Proof.
  unfold _extract_json.
  destruct (Str.contains "```json" text) eqn:Hj.
  - destruct (split_go_two "```json" text) with (cur := EmptyString)
      as (p & q & l & Hs); [done..|].
    unfold Str.split. rewrite Hs. cbn [index lookup list_lookup mbind result_bind].
    destruct (Str.split_go "```" 0 EmptyString q) as [|x xs] eqn:E;
      [by apply split_go_not_nil in E|].
    simpl. eauto.
  - destruct (Str.contains "```" text) eqn:Hf; [|eauto].
    destruct (split_go_two "```" text) with (cur := EmptyString)
      as (p & q & l & Hs); [done..|].
    unfold Str.split. rewrite Hs. cbn [index lookup list_lookup mbind result_bind].
    destruct (Str.split_go "```" 0 EmptyString q) as [|x xs] eqn:E;
      [by apply split_go_not_nil in E|].
    simpl. eauto.
Qed.

Lemma no_backtick_cons c s :
  no_backtick (String c s) ↔ c ≠ "`"%char ∧ no_backtick s.
Proof.
  unfold no_backtick. cbn [String.list_ascii_of_string].
  apply (Forall_cons (fun c => c ≠ "`"%char)).
Qed.

Lemma prefix_fence_other sep' c s :
  c ≠ "`"%char → String.prefix (String "`" sep') (String c s) = false.
Proof. intros Hc. rewrite prefix_cons. by destruct (ascii_dec "`" c). Qed.

Lemma prefix_fence_no_backtick sep' s :
  no_backtick s → String.prefix (String "`" sep') s = false.
Proof.
  destruct s as [|c s]; [done|]. intros [Hc _]%no_backtick_cons.
  by apply prefix_fence_other.
Qed.

Lemma split_go_no_backtick sep' x : no_backtick x →
  ∀ cur y, Str.split_go (String "`" sep') 0 cur (x +:+ y) =
           Str.split_go (String "`" sep') 0 (String.rev_app x cur) y.
Proof.
  induction x as [|c x IH]; intros Hx cur y; [done|].
  apply no_backtick_cons in Hx as [Hc Hx].
  rewrite append_cons, split_go_no_match by by apply prefix_fence_other.
  by rewrite IH.
Qed.

Lemma split_go_no_backtick_end sep' x cur :
  no_backtick x →
  Str.split_go (String "`" sep') 0 cur x = [String.rev (String.rev_app x cur)].
Proof.
  intros Hx. pose proof (split_go_no_backtick sep' x Hx cur EmptyString) as H.
  by rewrite append_nil_r, split_go_nil in H.
Qed.

Lemma split_before_fence sep' pre rest :
  no_backtick pre →
  Str.split (String "`" sep') (pre +:+ String "`" sep' +:+ rest) =
  pre :: Str.split (String "`" sep') rest.
Proof.
  intros Hpre. unfold Str.split.
  rewrite split_go_no_backtick, split_go_match by done.
  by rewrite rev_app_append, append_nil_r, rev_rev.
Qed.

Lemma split_no_backtick sep' s :
  no_backtick s → Str.split (String "`" sep') s = [s].
Proof.
  intros Hs. unfold Str.split.
  rewrite split_go_no_backtick_end by done.
  by rewrite rev_app_append, append_nil_r, rev_rev.
Qed.

Lemma contains_app_r needle x y :
  Str.contains needle y = true → Str.contains needle (x +:+ y) = true.
Proof.
  intros Hy. induction x as [|c x IH]; [done|].
  rewrite append_cons. cbn [Str.contains]. rewrite IH. apply orb_true_r.
Qed.

Lemma contains_fence sep pre rest :
  Str.contains sep (pre +:+ sep +:+ rest) = true.
Proof.
  apply contains_app_r.
  destruct (sep +:+ rest) eqn:E; cbn [Str.contains];
    rewrite <- E, prefix_append_self; done.
Qed.

Lemma contains_no_backtick sep' s :
  no_backtick s → Str.contains (String "`" sep') s = false.
Proof.
  induction s as [|c s IH]; [done|]. intros Hs.
  cbn [Str.contains]. rewrite prefix_fence_no_backtick by done.
  apply no_backtick_cons in Hs as [_ Hs]. by rewrite IH.
Qed.

(** The first piece of the split on the JSON fence, for a body that is
    closed by a plain fence: the body itself when the closing fence
    happens to be followed by [json], the whole text otherwise. *)
Lemma split_json_body body post :
  no_backtick body → no_backtick post →
  ∃ p l, Str.split "```json" (body +:+ "```" +:+ post) = p :: l ∧
         (p = body ∨ p = body +:+ "```" +:+ post).
Proof.
  intros Hbody Hpost. unfold Str.split.
  rewrite split_go_no_backtick by done.
  rewrite rev_app_append, append_nil_r.
  destruct (String.prefix "json" post) eqn:Hjson.
  - apply prefix_inv in Hjson as [post' ->].
    change ("```" +:+ "json" +:+ post') with ("```json" +:+ post').
    rewrite split_go_match, rev_rev by done. eauto.
  - assert (String.prefix "```json" ("```" +:+ post) = false) as H0.
    { change ("```" +:+ post) with (String "`" (String "`" (String "`" post))).
      rewrite !prefix_cons. by repeat (destruct (ascii_dec _ _); [|done]). }
    assert (String.prefix "```json" ("``" +:+ post) = false) as H1.
    { change ("``" +:+ post) with (String "`" (String "`" post)).
      rewrite !prefix_cons. repeat (destruct (ascii_dec _ _); [|done]).
      by apply prefix_fence_no_backtick. }
    assert (String.prefix "```json" ("`" +:+ post) = false) as H2.
    { change ("`" +:+ post) with (String "`" post).
      rewrite !prefix_cons. repeat (destruct (ascii_dec _ _); [|done]).
      by apply prefix_fence_no_backtick. }
    change ("```" +:+ post) with (String "`" ("``" +:+ post)) in *.
    rewrite split_go_no_match by done.
    change ("``" +:+ post) with (String "`" ("`" +:+ post)) in *.
    rewrite split_go_no_match by done.
    change ("`" +:+ post) with (String "`" post) in *.
    rewrite split_go_no_match by done.
    rewrite (split_go_no_backtick_end "``json") by done.
    eexists _, _. split; [done|]. right.
    rewrite rev_app_append, rev_append, rev_rev, !rev_cons, rev_rev.
    by rewrite !append_assoc.
Qed.

(** A reply that holds one block fenced with the JSON fence, with or
    without prose around it and with no other backtick, yields the body
    of the block, stripped. *)
Theorem extract_json_fenced_block pre body post :
  no_backtick pre → no_backtick body → no_backtick post →
  _extract_json (pre +:+ "```json" +:+ body +:+ "```" +:+ post)
  = Ok (Str.strip body).
Proof.
  intros Hpre Hbody Hpost. unfold _extract_json.
  rewrite contains_fence, (split_before_fence "``json") by done.
  destruct (split_json_body body post Hbody Hpost) as (p & l & -> & [-> | ->]);
    cbn [index lookup list_lookup mbind result_bind].
  - by rewrite (split_no_backtick "``").
  - by rewrite (split_before_fence "``").
Qed.

Lemma extract_json_fenced_block_witness :
  _extract_json ("Here is the mapping: " +:+ "```json" +:+ " {} " +:+ "```" +:+ " Done.")
  = Ok "{}".
Proof.
  apply (extract_json_fenced_block "Here is the mapping: " " {} " " Done.");
    by repeat constructor.
Defined.

(** The same for a plain fence, when the text holds no JSON fence. *)
Theorem extract_json_plain_fence pre body post :
  no_backtick pre → no_backtick body →
  Str.contains "```json" (pre +:+ "```" +:+ body +:+ "```" +:+ post) = false →
  _extract_json (pre +:+ "```" +:+ body +:+ "```" +:+ post) = Ok (Str.strip body).
Proof.
  intros Hpre Hbody Hnj. unfold _extract_json.
  rewrite Hnj, contains_fence, (split_before_fence "``") by done.
  rewrite (split_before_fence "``") by done.
  cbn [index lookup list_lookup mbind result_bind].
  by rewrite (split_no_backtick "``").
Qed.

Lemma extract_json_plain_fence_witness :
  _extract_json ("Sure: " +:+ "```" +:+ " [1, 2] " +:+ "```" +:+ " ok") = Ok "[1, 2]".
Proof.
  apply (extract_json_plain_fence "Sure: " " [1, 2] " " ok");
    [by repeat constructor|by repeat constructor|reflexivity].
Defined.

(** Missing fences are tolerated: an opening JSON fence that is never
    closed yields everything behind it, and a text without any backtick
    is returned whole; both stripped. *)
Theorem extract_json_unclosed pre body :
  no_backtick pre → no_backtick body →
  _extract_json (pre +:+ "```json" +:+ body) = Ok (Str.strip body).
Proof.
  intros Hpre Hbody. unfold _extract_json.
  rewrite contains_fence, (split_before_fence "``json") by done.
  rewrite (split_no_backtick "``json") by done.
  cbn [index lookup list_lookup mbind result_bind].
  by rewrite (split_no_backtick "``").
Qed.

Lemma extract_json_unclosed_witness :
  _extract_json ("```json" +:+ " {} ") = Ok "{}".
Proof.
  apply (extract_json_unclosed EmptyString " {} "); by repeat constructor.
Defined.

Theorem extract_json_bare text :
  no_backtick text → _extract_json text = Ok (Str.strip text).
Proof.
  intros Htext. unfold _extract_json.
  by rewrite (contains_no_backtick "``json"), (contains_no_backtick "``").
Qed.

Lemma extract_json_bare_witness : _extract_json "  {}  " = Ok "{}".
Proof. apply (extract_json_bare "  {}  "). by repeat constructor. Defined.

(** ** [str.strip] *)

Lemma lstrip_length s : String.length (Str.lstrip s) ≤ String.length s.
Proof.
  induction s as [|c s IH]; [done|]. simpl. destruct (Str.is_space c); simpl; lia.
Qed.

Lemma lstrip_idem s : Str.lstrip (Str.lstrip s) = Str.lstrip s.
Proof.
  induction s as [|c s IH]; [done|]. simpl.
  destruct (Str.is_space c) eqn:E; [done|]. simpl. by rewrite E.
Qed.

Lemma lstrip_suffix s : ∃ w, s = w +:+ Str.lstrip s.
Proof.
  induction s as [|c s [w IH]]; [by exists EmptyString|]. simpl.
  destruct (Str.is_space c).
  - exists (String c w). by rewrite append_cons, <- IH.
  - by exists EmptyString.
Qed.

Lemma lstrip_fixed_head c s :
  Str.lstrip (String c s) = String c s → Str.is_space c = false.
Proof.
  simpl. destruct (Str.is_space c); [|done]. intros Heq.
  pose proof (lstrip_length s) as Hlen. rewrite Heq in Hlen. simpl in Hlen. lia.
Qed.

(** Stripping the right end of a text that has no leading whitespace
    leaves a text without leading whitespace. *)
Lemma lstrip_after_rstrip t :
  Str.lstrip t = t →
  Str.lstrip (String.rev (Str.lstrip (String.rev t)))
  = String.rev (Str.lstrip (String.rev t)).
Proof.
  intros Ht.
  destruct (lstrip_suffix (String.rev t)) as [w Hw].
  assert (t = String.rev (Str.lstrip (String.rev t)) +:+ String.rev w) as Hpre.
  { rewrite <- rev_append, <- Hw. by rewrite rev_rev. }
  destruct (String.rev (Str.lstrip (String.rev t))) as [|c r]; [done|].
  rewrite append_cons in Hpre. rewrite Hpre in Ht.
  apply lstrip_fixed_head in Ht. simpl. by rewrite Ht.
Qed.

Lemma strip_idem s : Str.strip (Str.strip s) = Str.strip s.
Proof.
  unfold Str.strip.
  rewrite (lstrip_after_rstrip (Str.lstrip s)) by apply lstrip_idem.
  by rewrite rev_rev, lstrip_idem.
Qed.

(** What [_extract_json] returns has no whitespace left at either end:
    stripping it again changes nothing. *)
Theorem extract_json_stripped text r :
  _extract_json text = Ok r → Str.strip r = r.
Proof.
  unfold _extract_json.
  destruct (Str.contains "```json" text).
  - destruct (index _ 1) as [after|]; [|done]. cbn [mbind result_bind].
    destruct (index _ 0) as [inner|]; [|done]. cbn [mbind result_bind].
    intros [= <-]. apply strip_idem.
  - destruct (Str.contains "```" text).
    + destruct (index _ 1) as [after|]; [|done]. cbn [mbind result_bind].
      destruct (index _ 0) as [inner|]; [|done]. cbn [mbind result_bind].
      intros [= <-]. apply strip_idem.
    + intros [= <-]. apply strip_idem.
Qed.

Lemma extract_json_stripped_witness :
  _extract_json "``` {} ```" = Ok "{}" ∧ Str.strip "{}" = "{}".
Proof.
  split; [reflexivity|].
  apply (extract_json_stripped "``` {} ```" "{}"). reflexivity.
Defined.

(** ** The fuzzy pass of [_best_match] *)

(** Greedy threshold: when some candidate scores above 0.82,
    [_best_match] returns the first such candidate of the list, whatever
    the sample data holds and whatever the keyword table says, even if a
    later candidate scores higher. *)
Theorem best_match_first_above_threshold col before f after sample :
  Qgtb (score (normalize col) f) threshold = true →
  Forall (fun g => Qgtb (score (normalize col) g) threshold = false) before →
  _best_match col (before ++ f :: after) sample = Ok f.
Proof.
  intros Hf Hbefore.
  assert (∃ first, index (before ++ f :: after) 0 = Ok first) as [first Hfirst].
  { destruct before; simpl; eauto. }
  rewrite (best_match_steps _ _ _ _ Hfirst).
  assert (fuzzy_pass (normalize col) (before ++ f :: after) 0%Q first = inl f) as ->;
    [|done].
  apply fuzzy_pass_first_crossing. eauto.
Qed.

Lemma best_match_first_above_threshold_witness :
  _best_match "E-mails" (["name"] ++ "email" :: ["e_mails"]) website_sample
  = Ok "email".
Proof.
  apply (best_match_first_above_threshold "E-mails" ["name"] "email" ["e_mails"]).
  - by vm_compute.
  - repeat constructor.
Defined.

(** The state in which the loop ends: [s] bounds every score, and the
    running best is either untouched or the first field that reaches
    [s]. *)
Lemma fuzzy_pass_running_best clean fields : ∀ best_score best s r,
  fuzzy_pass clean fields best_score best = inr (s, r) →
  (best_score <= s)%Q ∧
  Forall (fun g => (score clean g <= s)%Q) fields ∧
  ((r = best ∧ s = best_score) ∨
   (∃ before after,
      fields = before ++ r :: after ∧ s = score clean r ∧
      (best_score < s)%Q ∧
      Forall (fun g => (score clean g < s)%Q) before)).
Proof.
  induction fields as [|f fields IH]; intros best_score best s r; cbn [fuzzy_pass].
  { intros [= <- <-]. split; [apply Qle_refl|]. split; [constructor|]. by left. }
  fold (score clean f).
  destruct (Qgtb (score clean f) best_score) eqn:Hup;
    (destruct (Qgtb (score clean f) threshold); [done|]); intros Hrec;
    apply IH in Hrec as (Hle & Hall & Hbest).
  - apply Qgtb_lt in Hup.
    split; [eapply Qle_trans; [by apply Qlt_le_weak|done]|].
    split; [by constructor|]. right.
    destruct Hbest as [[-> ->]|(before & after & -> & -> & Hlt & Hbefore)].
    + exists [], fields. repeat split; [done|constructor].
    + exists (f :: before), after. repeat split.
      * eapply Qlt_trans; done.
      * by constructor.
  - apply Qgtb_le in Hup.
    split; [done|]. split; [constructor; [eapply Qle_trans; done|done]|].
    destruct Hbest as [[-> ->]|(before & after & -> & -> & Hlt & Hbefore)];
      [by left|right].
    exists (f :: before), after. repeat split; [done|].
    constructor; [eapply Qle_lt_trans; done|done].
Qed.

(** Default of [_best_match]: when no score crosses the threshold, the
    content pass is silent and no keyword matches, the answer is the
    first field of the list if no score is positive, and otherwise the
    first field, in list order, with the highest score. *)
Theorem best_match_default col fields sample r :
  no_score_crosses col fields = true →
  content_pass col fields sample = None →
  keyword_pass (normalize col) fields boosts = None →
  _best_match col fields sample = Ok r →
  (index fields 0 = Ok r ∧
   Forall (fun g => (score (normalize col) g <= 0)%Q) fields) ∨
  (∃ before after,
     fields = before ++ r :: after ∧
     (0 < score (normalize col) r)%Q ∧
     Forall (fun g => (score (normalize col) g < score (normalize col) r)%Q) before ∧
     Forall (fun g => (score (normalize col) g <= score (normalize col) r)%Q) after).
Proof.
  intros Hcross Hcontent Hkw. unfold _best_match.
  destruct (index fields 0) as [first|] eqn:Hfirst; [|done].
  cbn [mbind result_bind].
  destruct (fuzzy_pass (normalize col) fields 0%Q first) as [f|[s best]] eqn:Hfz.
  { apply fuzzy_pass_first_crossing in Hfz as (before & after & -> & Hf & _).
    unfold no_score_crosses in Hcross. rewrite forallb_app in Hcross.
    cbn [forallb] in Hcross. fold (score (normalize col) f) in Hcross.
    rewrite Hf in Hcross. simpl in Hcross. by rewrite andb_false_r in Hcross. }
  rewrite Hcontent, Hkw. intros [= <-].
  apply fuzzy_pass_running_best in Hfz as (H0 & Hall & Hbest).
  destruct Hbest as [[-> ->]|(before & after & -> & -> & Hlt & Hbefore)].
  - by left.
  - right. exists before, after. repeat split; try done.
    apply Forall_app in Hall as [_ Hall]. by apply Forall_cons in Hall as [_ ?].
Qed.

Lemma best_match_default_witness :
  (index (candidate_fields "visitors") 0 = Ok "email" ∧
   Forall (fun g => (score (normalize "cell_no") g <= 0)%Q)
          (candidate_fields "visitors")) ∨
  (∃ before after,
     candidate_fields "visitors" = before ++ "email" :: after ∧
     (0 < score (normalize "cell_no") "email")%Q ∧
     Forall (fun g => (score (normalize "cell_no") g
                       < score (normalize "cell_no") "email")%Q) before ∧
     Forall (fun g => (score (normalize "cell_no") g
                       <= score (normalize "cell_no") "email")%Q) after).
Proof.
  apply (best_match_default "cell_no" (candidate_fields "visitors") None "email");
    by vm_compute.
Defined.

(** ** Headers and samples *)

Lemma normalize_lower s : normalize (Str.lower s) = normalize s.
Proof.
  unfold normalize, Str.lower. f_equal.
  induction s as [|c s IH]; [done|]. cbn [Str.map]. rewrite IH. f_equal.
  by destruct c as [[] [] [] [] [] [] [] []].
Qed.

Lemma lower_char_idem c : Str.lower_char (Str.lower_char c) = Str.lower_char c.
Proof. by destruct c as [[] [] [] [] [] [] [] []]. Qed.

Lemma normalize_idem s : normalize (normalize s) = normalize s.
Proof.
  unfold normalize, Str.lower.
  induction s as [|c s IH]; [done|]. cbn [Str.map Str.filter].
  destruct (Str.is_lower (Str.lower_char c) || Str.is_digit (Str.lower_char c)) eqn:E;
    [|done].
  cbn [Str.map Str.filter]. by rewrite lower_char_idem, E, IH.
Qed.

(** The matcher reads a header only through its normalized form and its
    sample column: two headers with the same letters and digits, up to
    case, and without usable sample data get the same field. *)
Theorem best_match_header_spelling col1 col2 fields sample1 sample2 :
  normalize col1 = normalize col2 →
  no_sample_data col1 sample1 →
  no_sample_data col2 sample2 →
  _best_match col1 fields sample1 = _best_match col2 fields sample2.
Proof.
  intros Hnorm Hno1 Hno2. unfold _best_match.
  destruct (index fields 0) as [first|]; [|done]. cbn [mbind result_bind].
  rewrite Hnorm.
  by rewrite (content_pass_no_sample col1), (content_pass_no_sample col2).
Qed.

Lemma best_match_header_spelling_witness :
  _best_match "E-Mail_Address" (candidate_fields "buyers") None
  = _best_match "email address" (candidate_fields "buyers") contact_sample_opt.
Proof.
  apply (best_match_header_spelling "E-Mail_Address" "email address").
  - reflexivity.
  - exact I.
  - reflexivity.
Defined.

Lemma contains_join needle sep vals :
  Exists (fun v => Str.contains needle v = true) vals →
  Str.contains needle (Str.join sep vals) = true.
Proof.
  induction vals as [|v vals IH]; intros Hex; [by apply Exists_nil in Hex|].
  destruct vals as [|v' vals].
  - apply Exists_cons in Hex as [?|Hex]; [done|by apply Exists_nil in Hex].
  - rewrite join_cons by done.
    apply Exists_cons in Hex as [Hv|Hex]; [by apply contains_app_l|].
    do 2 apply contains_app_r. by apply IH.
Qed.

(** Content sniffing on e-mail addresses, for any header and any
    candidate list: when no score crosses the threshold, ["email"] is a
    candidate and one of the first five non-null cells of the column
    holds an ["@"], the column is mapped to ["email"], whatever its name
    and the keyword table say. *)
Theorem best_match_email_cells col fields df series :
  no_score_crosses col fields = true →
  "email" ∈ fields →
  df !! col = Some series →
  Exists (fun v => Str.contains "@" v = true) (take 5 (omap id series)) →
  _best_match col fields (Some df) = Ok "email".
Proof.
  intros Hcross Hemail Hcol Hat.
  assert (_infer_content series fields = Some "email") as Hinfer.
  { unfold _infer_content.
    rewrite bool_decide_eq_false_2 by (intros Hnil; rewrite Hnil in Hat;
                                       by apply Exists_nil in Hat).
    rewrite contains_at_lower by by apply contains_join.
    by rewrite bool_decide_eq_true_2. }
  assert (∃ first, index fields 0 = Ok first) as [first Hfirst].
  { destruct fields; [by apply elem_of_nil in Hemail|simpl; eauto]. }
  rewrite (best_match_steps _ _ _ _ Hfirst).
  destruct (fuzzy_pass_no_crossing col fields 0%Q first Hcross) as (s & r & ->).
  unfold content_pass. by rewrite Hcol, Hinfer.
Qed.

Lemma best_match_email_cells_witness :
  _best_match "Phone Number" ["phone"; "email"]
    (Some {[ "Phone Number" := [None; Some "n/a"; Some "joe@site.org"] ]})
  = Ok "email".
Proof.
  apply (best_match_email_cells "Phone Number" ["phone"; "email"] _
           [None; Some "n/a"; Some "joe@site.org"]).
  - by vm_compute.
  - by repeat constructor.
  - reflexivity.
  - right. left. reflexivity.
Defined.

(** ** Headers without letters or digits *)

Lemma similarity_blank y :
  y ≠ EmptyString →
  similarity EmptyString y = (0 # Pos.of_nat (String.length y))%Q.
Proof.
  intros Hy. unfold similarity, difflib.ratio, difflib._calculate_ratio.
  cbn. destruct y as [|c y]; [done|]. cbn.
  assert (length (String.list_ascii_of_string y) = String.length y) as ->; [|done].
  induction y as [|c' y IH]; [done|]. cbn. f_equal. apply IH. done.
Qed.

Lemma fuzzy_pass_blank fields first :
  Forall (fun f => normalize f ≠ EmptyString) fields →
  fuzzy_pass EmptyString fields 0%Q first = inr (0%Q, first).
Proof.
  induction fields as [|f fields IH]; intros Hall; [done|].
  apply Forall_cons in Hall as [Hf Hall]. cbn [fuzzy_pass].
  rewrite (similarity_blank _ Hf). cbn. by apply IH.
Qed.

Lemma keyword_pass_blank fields : keyword_pass EmptyString fields boosts = None.
Proof. unfold boosts. cbn. by rewrite !andb_false_r. Qed.

(** For any candidate list whose names all hold a letter or a digit, a
    header that holds none and has no usable sample data is mapped to
    the first candidate. *)
Theorem best_match_blank_header col first fields sample :
  no_alnum col →
  no_sample_data col sample →
  Forall (fun f => normalize f ≠ EmptyString) (first :: fields) →
  _best_match col (first :: fields) sample = Ok first.
Proof.
  intros Hblank Hno Hfields.
  rewrite (best_match_steps _ _ _ first) by done.
  rewrite (normalize_no_alnum col Hblank), fuzzy_pass_blank by done.
  by rewrite content_pass_no_sample, keyword_pass_blank.
Qed.

Lemma best_match_blank_header_witness :
  _best_match "# / %" ("status" :: ["tax"; "city"]) contact_sample_opt = Ok "status".
Proof.
  apply (best_match_blank_header "# / %" "status" ["tax"; "city"]).
  - by repeat constructor.
  - reflexivity.
  - by repeat constructor.
Defined.

(** ** The keyword table *)

(** The entries ["net_worth"] and ["income"] of the table stand behind
    ["revenue"], whose keywords include ["worth"] and ["income"]: when
    ["revenue"] is a candidate, a name that holds one of these two words
    is settled by the keyword pass at ["revenue"] or before, never at
    ["net_worth"] or ["income"]. *)
Theorem keyword_pass_worth_income clean fields :
  "revenue" ∈ fields →
  Str.contains "worth" clean = true ∨ Str.contains "income" clean = true →
  ∃ r, keyword_pass clean fields boosts = Some r ∧
       r ∈ ["email"; "phone"; "name"; "address"; "city"; "state"; "zip_code";
            "revenue"].
Proof.
  intros Hrev Hword. unfold boosts. cbn [keyword_pass].
  repeat match goal with
  | |- context [if bool_decide (?f ∈ fields) && existsb ?p ?kws then _ else _] =>
      lazymatch f with
      | "revenue" => fail
      | _ => destruct (bool_decide (f ∈ fields) && existsb p kws);
             [eexists; split; [reflexivity|by repeat constructor]|]
      end
  end.
  rewrite bool_decide_eq_true_2 by done. cbn [existsb andb].
  destruct Hword as [-> | ->]; rewrite ?orb_true_r; cbn [orb];
    eexists; (split; [reflexivity|by repeat constructor]).
Qed.

Lemma keyword_pass_worth_income_witness :
  ∃ r, keyword_pass (normalize "Household Net Worth") (candidate_fields "buyers") boosts
       = Some r ∧
       r ∈ ["email"; "phone"; "name"; "address"; "city"; "state"; "zip_code";
            "revenue"].
Proof.
  apply (keyword_pass_worth_income (normalize "Household Net Worth")
           (candidate_fields "buyers")).
  - by repeat constructor.
  - left. reflexivity.
Defined.

(** ** The orchestrator and its caller *)

Section Orchestrator_more.

Variable GEMINI_API_KEY : option string.
Variable generate_content : prompt → result string.
Variable json_loads : string → result pyval.

Abbreviation suggest' :=
  (suggest_column_mapping GEMINI_API_KEY generate_content json_loads).
Abbreviation ask' :=
  (ask_model generate_content json_loads).

Lemma validated_dict_Ok file_type sample items col :
  ∃ v, validated (candidate_fields file_type) sample (PyDict items) col = Ok v.
Proof.
  unfold validated. cbn [py_get mbind result_bind].
  destruct (py_in _ _); [eauto|].
  destruct (fallback_value_Ok file_type sample col) as (s & -> & _). eauto.
Qed.

(** A suggestion of the model that is a candidate field is kept as it
    is, whatever [_best_match] would have answered for the column. *)
Theorem valid_suggestion_kept columns file_type sample std items col s :
  no_api_key GEMINI_API_KEY = false →
  _standard_fields file_type = Ok std →
  ask' columns file_type std sample = Ok (PyDict items) →
  col ∈ columns →
  py_get (PyDict items) col = Ok (PyStr s) →
  s ∈ candidate_fields file_type →
  ∃ m, suggest' columns file_type sample = Ok m ∧ m !! col = Some (PyStr s).
Proof.
  intros Hkey Hstd Hask Hcol Hget Hs.
  unfold suggest_column_mapping. rewrite Hkey, ai_mapping_unfold.
  unfold _standard_fields in Hstd. injection Hstd as <-.
  rewrite Hask. cbn [mbind result_bind].
  destruct (fill_is_Ok (validated (candidate_fields file_type) sample (PyDict items))
              columns) with (final := (∅ : gmap string pyval)) as [m Hm].
  { intros c _. apply validated_dict_Ok. }
  rewrite Hm. exists m. split; [done|].
  rewrite (fill_lookup _ _ _ _ Hm col), bool_decide_eq_true_2 by done.
  unfold validated. rewrite Hget. cbn [mbind result_bind py_in].
  by rewrite bool_decide_eq_true_2.
Qed.

(** Without a key, when anything fails between the call of the model
    and [json.loads], or when the reply parses to something that is not
    a JSON object, the result is exactly the fallback mapping. *)
Theorem unusable_reply_is_fallback columns file_type sample std :
  _standard_fields file_type = Ok std →
  no_api_key GEMINI_API_KEY = true ∨
  (∃ e, ask' columns file_type std sample = Raise e) ∨
  (∃ v, ask' columns file_type std sample = Ok v ∧ ∀ items, v ≠ PyDict items) →
  suggest' columns file_type sample = _fallback_mapping columns file_type sample.
Proof.
  intros Hstd Hcase. unfold suggest_column_mapping.
  destruct (no_api_key GEMINI_API_KEY); [done|].
  destruct Hcase as [?|Hcase]; [done|].
  rewrite ai_mapping_unfold.
  unfold _standard_fields in Hstd. injection Hstd as <-.
  destruct Hcase as [[e ->]|(v & -> & Hv)]; [done|].
  cbn [mbind result_bind].
  destruct columns as [|c cs].
  - reflexivity.
  - cbn [fill]. unfold validated at 1.
    destruct v; try done. by destruct (Hv items).
Qed.

End Orchestrator_more.

Lemma valid_suggestion_kept_witness :
  ∃ m, suggest_column_mapping (Some "key") (fun _ => Ok "{}")
         (fun _ => Ok (PyDict [("Total", PyStr "tax")]))
         ["Total"; "Mail"] "buyers" None = Ok m ∧
       m !! "Total" = Some (PyStr "tax").
Proof.
  apply (valid_suggestion_kept (Some "key") (fun _ => Ok "{}")
           (fun _ => Ok (PyDict [("Total", PyStr "tax")]))
           ["Total"; "Mail"] "buyers" None buyers [("Total", PyStr "tax")]).
  - reflexivity.
  - reflexivity.
  - reflexivity.
  - by repeat constructor.
  - reflexivity.
  - by repeat constructor.
Defined.

Lemma unusable_reply_is_fallback_witness :
  suggest_column_mapping (Some "key") (fun _ => Ok "[1, 2]")
    (fun _ => Ok (PyList [PyInt 1; PyInt 2])) ["Total"; "Mail"] "buyers" None
  = _fallback_mapping ["Total"; "Mail"] "buyers" None.
Proof.
  apply (unusable_reply_is_fallback (Some "key") (fun _ => Ok "[1, 2]")
           (fun _ => Ok (PyList [PyInt 1; PyInt 2]))
           ["Total"; "Mail"] "buyers" None buyers).
  - reflexivity.
  - right. right. eexists. split; [reflexivity|done].
Defined.

(** The fallback mapping depends on the set of column names only:
    their order and their repetitions do not matter, and no column
    influences the field of another. *)
Theorem fallback_mapping_set columns columns' file_type sample :
  (list_to_set columns : gset string) = list_to_set columns' →
  _fallback_mapping columns file_type sample
  = _fallback_mapping columns' file_type sample.
Proof.
  intros Hset. rewrite !fallback_mapping_unfold.
  set (value := fun col => PyStr <$> _best_match col (candidate_fields file_type) sample).
  assert (∀ cols, ∃ m, fill value cols ∅ = Ok m) as Hok.
  { intros cols. apply fill_is_Ok. intros col _.
    destruct (fallback_value_Ok file_type sample col) as (s & Hs & _). eauto. }
  destruct (Hok columns) as [m Hm]. destruct (Hok columns') as [m' Hm'].
  rewrite Hm, Hm'. f_equal. apply map_eq. intros col.
  rewrite (fill_lookup _ _ _ _ Hm col), (fill_lookup _ _ _ _ Hm' col).
  assert (bool_decide (col ∈ columns) = bool_decide (col ∈ columns')) as ->; [|done].
  apply bool_decide_ext.
  by rewrite <- !(elem_of_list_to_set (C := gset string)), Hset.
Qed.

Lemma fallback_mapping_set_witness :
  _fallback_mapping ["Mail"; "Total"; "Mail"] "buyers" None
  = _fallback_mapping ["Total"; "Mail"] "buyers" None.
Proof.
  apply (fallback_mapping_set ["Mail"; "Total"; "Mail"] ["Total"; "Mail"]).
  apply set_eq. intros x. rewrite !elem_of_list_to_set, !elem_of_cons, elem_of_nil.
  tauto.
Defined.

Lemma filter_Forall {A} (P : A → Prop) `{∀ x, Decision (P x)} (l : list A) :
  Forall P l → filter P l = l.
Proof.
  induction 1 as [|x l Hx Hl IH]; [done|]. by rewrite filter_cons_True, IH.
Qed.

(** The count of mapped columns that the endpoint reports: every value
    of the suggested mapping is a non-empty string, so every entry
    counts, whether it came from the model or from the fallback; with
    pairwise distinct headers the count is the number of columns. *)
Theorem mapped_columns_all
    (GEMINI_API_KEY : option string) (generate_content : prompt → result string)
    (json_loads : string → result pyval)
    (columns : list string) (file_type : string) (sample_data : option DataFrame)
    (m : gmap string pyval) :
  suggest_column_mapping GEMINI_API_KEY generate_content json_loads
    columns file_type sample_data = Ok m →
  mapped_columns m = size m ∧
  (NoDup columns → mapped_columns m = length columns).
Proof.
  intros Hm.
  assert (mapped_columns m = size m) as Hall.
  { unfold mapped_columns. rewrite <- (length_map_to_list m).
    rewrite <- (length_fmap snd (map_to_list m)). f_equal.
    apply filter_Forall, Forall_forall. intros v Hv.
    apply list_elem_of_fmap in Hv as ([col v'] & -> & Hv).
    apply elem_of_map_to_list in Hv.
    destruct (suggest_value_range _ _ _ _ _ _ _ _ _ Hm Hv) as (s & -> & Hs & _).
    cbn. by rewrite bool_decide_eq_false_2. }
  split; [done|]. intros Hnd. rewrite Hall.
  destruct (suggest_spec GEMINI_API_KEY generate_content json_loads
              columns file_type sample_data) as (m' & Hm' & Hdom & _).
  rewrite Hm in Hm'. injection Hm' as <-.
  by rewrite <- size_dom, Hdom, size_list_to_set.
Qed.

Lemma mapped_columns_all_witness :
  mapped_columns {[ "website" := PyStr "referrer" ]}
  = size ({[ "website" := PyStr "referrer" ]} : gmap string pyval) ∧
  (NoDup ["website"] →
   mapped_columns {[ "website" := PyStr "referrer" ]} = length ["website"]).
Proof.
  apply (mapped_columns_all None unreachable_model no_json
           ["website"] "buyers" website_sample {[ "website" := PyStr "referrer" ]}).
  vm_compute. reflexivity.
Defined.

(** The separator chosen by the endpoint is the comma, the tab or the
    semicolon, whichever occurs most often in the sample; on equal
    counts the comma wins over the tab and the tab over the semicolon,
    so a sample that holds none of them is read as comma-separated. *)
Theorem detect_sep_choice sample :
  let comma := count_char "," sample in
  let tab := count_char "009" sample in
  let semi := count_char ";" sample in
  (detect_sep sample = ","%char ∧ tab ≤ comma ∧ semi ≤ comma) ∨
  (detect_sep sample = "009"%char ∧ comma < tab ∧ semi ≤ tab) ∨
  (detect_sep sample = ";"%char ∧ comma < semi ∧ tab < semi).
Proof.
  unfold detect_sep. cbn [max_by_count snd].
  destruct (Nat.ltb_spec (count_char "," sample) (count_char "009" sample));
    cbn [snd];
    match goal with
    | |- context [?x <? count_char ";" sample] =>
        destruct (Nat.ltb_spec x (count_char ";" sample))
    end; cbn [fst].
  - right. right. split; [done|lia].
  - right. left. split; [done|lia].
  - right. right. split; [done|lia].
  - left. split; [done|lia].
Qed.

(** ** [SimpleVectorStore] *)

Section VectorStore_facts.

Variable Summary : Type.
Variable summarize : string → DataFrame → result Summary.
Variable format_context : string → Summary → string.

Lemma store_data_both_keys workspaces workspace_id file_type df :
  both_keys Summary workspaces →
  both_keys Summary (store_data Summary summarize workspaces workspace_id file_type df).1.
Proof.
  intros Hwf. unfold store_data.
  set (ws1 := match workspaces !! workspace_id with
              | Some _ => workspaces
              | None => <[workspace_id :=
                          <["buyers" := None]> (<["visitors" := None]> ∅)]> workspaces
              end).
  assert (both_keys Summary ws1) as Hwf1.
  { subst ws1. destruct (workspaces !! workspace_id) eqn:E; [exact Hwf|].
    intros wid data. rewrite lookup_insert. case_decide; [|by apply Hwf].
    intros [= <-].
    split; [rewrite lookup_insert_eq
           |rewrite lookup_insert_ne by done; rewrite lookup_insert_eq]; eauto. }
  destruct (summarize file_type df) as [summary|e]; [|exact Hwf1]. cbn [fst].
  intros wid data. rewrite lookup_alter. case_decide; [|by apply Hwf1].
  destruct (ws1 !! workspace_id) as [data0|] eqn:E; cbn; [|done]. intros [= <-].
  destruct (Hwf1 _ _ E) as [Hb Hv].
  split; rewrite lookup_insert; case_decide; eauto.
Qed.

Lemma reachable_both_keys workspaces :
  reachable Summary summarize workspaces → both_keys Summary workspaces.
Proof.
  induction 1 as [|ws wid ft df _ IH].
  - intros wid data. by rewrite lookup_empty.
  - by apply store_data_both_keys.
Qed.

(** In every state of the store [get_context] returns a text: the keys
    [buyers] and [visitors] it reads are there in every workspace, so
    it never ends in a [KeyError]. *)
Theorem get_context_returns workspaces workspace_id query :
  reachable Summary summarize workspaces →
  ∃ text, get_context Summary format_context workspaces workspace_id query = Found text.
Proof.
  intros Hreach%reachable_both_keys. unfold get_context.
  destruct (workspaces !! workspace_id) as [data|] eqn:E; [|eauto].
  destruct (Hreach _ _ E) as [[b Hb] [v Hv]]. unfold getitem. rewrite Hb, Hv.
  destruct (bool_decide _); eauto.
Qed.

(** What [get_context] answers, in terms of the summaries stored. *)
Lemma get_context_stored workspaces workspace_id query :
  both_keys Summary workspaces →
  get_context Summary format_context workspaces workspace_id query =
  match workspaces !! workspace_id with
  | None => Found "No data available for this workspace."
  | Some _ =>
      match stored Summary workspaces workspace_id "buyers",
            stored Summary workspaces workspace_id "visitors" with
      | None, None => Found "No data uploaded yet."
      | Some b, None => Found (format_context "Buyers" b)
      | None, Some v => Found (format_context "Visitors" v)
      | Some b, Some v =>
          Found (format_context "Buyers" b +:+ blank_line +:+ format_context "Visitors" v)
      end
  end.
Proof.
  intros Hwf. unfold get_context, stored.
  destruct (workspaces !! workspace_id) as [data|] eqn:E; [|done].
  destruct (Hwf _ _ E) as [[b Hb] [v Hv]]. unfold getitem. rewrite Hb, Hv.
  by destruct b, v.
Qed.

Lemma stored_store workspaces workspace_id file_type df summary wid ft :
  summarize file_type df = Ok summary →
  stored Summary (store_data Summary summarize workspaces workspace_id file_type df).1 wid ft =
  if bool_decide (wid = workspace_id ∧ ft = file_type) then Some summary
  else stored Summary workspaces wid ft.
Proof.
  intros Hsum. unfold store_data, stored. rewrite Hsum. cbn [fst].
  rewrite lookup_alter.
  destruct (decide (workspace_id = wid)) as [<-|Hne].
  - destruct (workspaces !! workspace_id) as [data|] eqn:E.
    + rewrite E. cbn. rewrite lookup_insert.
      case_decide; case_bool_decide; (intuition congruence).
    + rewrite lookup_insert_eq. cbn. rewrite lookup_insert.
      case_decide; case_bool_decide; try (intuition congruence).
      rewrite lookup_insert. case_decide; [done|].
      rewrite lookup_insert. by case_decide.
  - rewrite bool_decide_eq_false_2 by (intuition congruence).
    destruct (workspaces !! workspace_id) eqn:E; [done|].
    by rewrite lookup_insert_ne.
Qed.

(** Store, then ask: after a frame is stored as buyers data, the
    context of the workspace starts with the buyers part laid out from
    its summary, followed by the visitors part if visitors data was
    stored before; the same with the roles exchanged puts the new
    visitors part behind the buyers part. *)
Theorem store_then_get_context workspaces workspace_id df summary query :
  reachable Summary summarize workspaces →
  (summarize "buyers" df = Ok summary →
   get_context Summary format_context
     (store_data Summary summarize workspaces workspace_id "buyers" df).1
     workspace_id query =
   Found (match stored Summary workspaces workspace_id "visitors" with
          | Some v => format_context "Buyers" summary +:+ blank_line
                        +:+ format_context "Visitors" v
          | None => format_context "Buyers" summary
          end)) ∧
  (summarize "visitors" df = Ok summary →
   get_context Summary format_context
     (store_data Summary summarize workspaces workspace_id "visitors" df).1
     workspace_id query =
   Found (match stored Summary workspaces workspace_id "buyers" with
          | Some b => format_context "Buyers" b +:+ blank_line
                        +:+ format_context "Visitors" summary
          | None => format_context "Visitors" summary
          end)).
Proof.
  intros Hreach.
  assert (∀ ft, is_Some ((store_data Summary summarize workspaces workspace_id ft df).1
                         !! workspace_id))
    as Hsome.
  { intros ft. unfold store_data.
    destruct (summarize ft df); cbn [fst]; rewrite ?lookup_alter;
      destruct (workspaces !! workspace_id) eqn:E;
      rewrite ?decide_True, ?E, ?lookup_insert_eq by done; eauto. }
  split; intros Hsum.
  - rewrite get_context_stored
      by (apply reachable_both_keys; by constructor).
    destruct (Hsome "buyers") as [data ->].
    rewrite !(stored_store _ _ _ _ _ _ _ Hsum).
    rewrite bool_decide_eq_true_2, bool_decide_eq_false_2 by (intuition congruence).
    by destruct (stored Summary workspaces workspace_id "visitors").
  - rewrite get_context_stored
      by (apply reachable_both_keys; by constructor).
    destruct (Hsome "visitors") as [data ->].
    rewrite !(stored_store _ _ _ _ _ _ _ Hsum).
    rewrite bool_decide_eq_false_2, bool_decide_eq_true_2 by (intuition congruence).
    by destruct (stored Summary workspaces workspace_id "buyers").
Qed.

(** Workspaces do not see each other: storing into one workspace
    leaves the context of every other workspace as it was. *)
Theorem store_data_other_workspace
    workspaces workspace_id file_type df other query :
  other ≠ workspace_id →
  get_context Summary format_context
    (store_data Summary summarize workspaces workspace_id file_type df).1 other query
  = get_context Summary format_context workspaces other query.
Proof.
  intros Hne. unfold get_context, store_data.
  assert ((match workspaces !! workspace_id with
           | Some _ => workspaces
           | None => <[workspace_id :=
                       <["buyers" := None]> (<["visitors" := None]> ∅)]> workspaces
           end) !! other = workspaces !! other) as Hinit.
  { destruct (workspaces !! workspace_id); [done|]. by rewrite lookup_insert_ne. }
  destruct (summarize file_type df); cbn [fst];
    by rewrite ?lookup_alter_ne, Hinit.
Qed.

(** The state that [store_data] leaves, as one update of the store. *)
Lemma store_data_state workspaces workspace_id file_type df :
  (store_data Summary summarize workspaces workspace_id file_type df).1 =
  let data := default (<["buyers" := None]> (<["visitors" := None]> ∅))
                      (workspaces !! workspace_id) in
  match summarize file_type df with
  | Ok summary => <[workspace_id := <[file_type := Some summary]> data]> workspaces
  | Raise _ => <[workspace_id := data]> workspaces
  end.
Proof.
  unfold store_data.
  destruct (summarize file_type df) as [summary|e];
    destruct (workspaces !! workspace_id) as [data|] eqn:E; cbn.
  - apply map_eq. intros j. rewrite lookup_alter, lookup_insert.
    case_decide; [by rewrite E|done].
  - apply map_eq. intros j. rewrite lookup_alter, lookup_insert_eq, !lookup_insert.
    by case_decide.
  - by rewrite insert_id.
  - done.
Qed.

(** The last frame stored under a workspace and file type replaces the
    one before: storing twice leaves the store as storing the second
    frame alone does. *)
Theorem store_data_overwrites workspaces workspace_id file_type df1 df2 summary :
  summarize file_type df2 = Ok summary →
  (store_data Summary summarize
         (store_data Summary summarize workspaces workspace_id file_type df1).1
         workspace_id file_type df2).1
  = (store_data Summary summarize workspaces workspace_id file_type df2).1.
Proof.
  intros Hsum.
  rewrite (store_data_state (store_data Summary summarize workspaces workspace_id file_type df1).1).
  rewrite (store_data_state workspaces workspace_id file_type df2), Hsum.
  rewrite (store_data_state workspaces workspace_id file_type df1). cbn zeta.
  destruct (summarize file_type df1) as [summary1|e];
    rewrite lookup_insert_eq, insert_insert_eq; cbn [default]; unfold id;
    by rewrite ?insert_insert_eq.
Qed.

(** A file type that is neither [buyers] nor [visitors] is stored but
    never read: the context of a workspace that existed stays as it
    was, and a workspace the call created answers that nothing was
    uploaded. The same holds when the summary could not be built. *)
Theorem store_data_invisible workspaces workspace_id file_type df query :
  reachable Summary summarize workspaces →
  (file_type ≠ "buyers" ∧ file_type ≠ "visitors") ∨
  (∃ e, summarize file_type df = Raise e) →
  get_context Summary format_context
    (store_data Summary summarize workspaces workspace_id file_type df).1
    workspace_id query =
  match workspaces !! workspace_id with
  | Some _ => get_context Summary format_context workspaces workspace_id query
  | None => Found "No data uploaded yet."
  end.
Proof.
  intros Hreach Hcase.
  rewrite !get_context_stored by (apply reachable_both_keys; by repeat constructor).
  assert (∀ ft, ft = "buyers" ∨ ft = "visitors" →
    stored Summary (store_data Summary summarize workspaces workspace_id file_type df).1
      workspace_id ft
    = stored Summary workspaces workspace_id ft) as Hsame.
  { intros ft Hft. destruct (summarize file_type df) as [summary|e] eqn:Hsum.
    - rewrite (stored_store _ _ _ _ _ _ _ Hsum).
      destruct Hcase as [[? ?]|[e ?]]; [|done].
      rewrite bool_decide_eq_false_2; [done|]. (intuition congruence).
    - unfold store_data, stored. rewrite Hsum. cbn [fst].
      destruct (workspaces !! workspace_id) as [data|] eqn:E; [by rewrite E|].
      rewrite lookup_insert_eq.
      destruct Hft as [-> | ->]; by simplify_map_eq. }
  rewrite !Hsame by auto.
  assert (is_Some ((store_data Summary summarize workspaces workspace_id file_type df).1
                   !! workspace_id))
    as [data' ->].
  { unfold store_data.
    destruct (summarize file_type df); cbn [fst]; rewrite ?lookup_alter;
      destruct (workspaces !! workspace_id) eqn:E;
      rewrite ?decide_True, ?E, ?lookup_insert_eq by done; eauto. }
  destruct (workspaces !! workspace_id) as [data|] eqn:E; [done|].
  unfold stored. by rewrite E.
Qed.

End VectorStore_facts.

Lemma get_context_returns_witness :
  ∃ text,
    get_context nat label_only
      (store_data nat count_columns ∅ 7 "buyers" contact_sample).1 7 "how many?"
    = Found text.
Proof.
  apply (get_context_returns nat count_columns label_only
           (store_data nat count_columns ∅ 7 "buyers" contact_sample).1 7 "how many?").
  apply reachable_store, reachable_empty.
Defined.

Lemma store_then_get_context_witness :
  (count_columns "buyers" contact_sample = Ok 1 →
   get_context nat label_only
     (store_data nat count_columns ∅ 7 "buyers" contact_sample).1 7 "how many?"
   = Found (match stored nat ∅ 7 "visitors" with
            | Some v => label_only "Buyers" 1 +:+ blank_line +:+ label_only "Visitors" v
            | None => label_only "Buyers" 1
            end)) ∧
  (count_columns "visitors" contact_sample = Ok 1 →
   get_context nat label_only
     (store_data nat count_columns ∅ 7 "visitors" contact_sample).1 7 "how many?"
   = Found (match stored nat ∅ 7 "buyers" with
            | Some b => label_only "Buyers" b +:+ blank_line +:+ label_only "Visitors" 1
            | None => label_only "Visitors" 1
            end)).
Proof.
  apply (store_then_get_context nat count_columns label_only ∅ 7 contact_sample 1
           "how many?").
  apply reachable_empty.
Defined.

Lemma store_data_other_workspace_witness :
  get_context nat label_only
    (store_data nat count_columns ∅ 7 "buyers" contact_sample).1 8 "how many?"
  = get_context nat label_only ∅ 8 "how many?".
Proof.
  apply (store_data_other_workspace nat count_columns label_only
           ∅ 7 "buyers" contact_sample 8 "how many?").
  done.
Defined.

Lemma store_data_overwrites_witness :
  (store_data nat count_columns
     (store_data nat count_columns ∅ 7 "buyers" ∅).1 7 "buyers" contact_sample).1
  = (store_data nat count_columns ∅ 7 "buyers" contact_sample).1.
Proof.
  apply (store_data_overwrites nat count_columns ∅ 7 "buyers" ∅ contact_sample 1).
  reflexivity.
Defined.

Lemma store_data_invisible_witness :
  get_context nat label_only
    (store_data nat count_columns ∅ 7 "leads" contact_sample).1 7 "how many?"
  = match (∅ : gmap Z (gmap string (option nat))) !! 7%Z with
    | Some _ => get_context nat label_only ∅ 7 "how many?"
    | None => Found "No data uploaded yet."
    end.
Proof.
  apply (store_data_invisible nat count_columns label_only
           ∅ 7 "leads" contact_sample "how many?").
  - apply reachable_empty.
  - left. done.
Defined.

(** ** The range of the fuzzy score *)

Section Ratio_range.

Context {A : Type} `{EqDecision A}.
Variables a b : list A.

Import difflib.

Lemma total_app blocks m : total (blocks ++ [m]) = total blocks + m.2.
Proof. induction blocks as [|x l IH]; simpl; [lia|]. rewrite IH. lia. Qed.

(** The blocks found in the windows of the queue fit into them, on the
    side of [a] and on the side of [b]. *)
Lemma blocks_loop_total fuel : ∀ queue blocks res,
  blocks_loop a b fuel queue blocks = Some res →
  total res ≤ total blocks + room_a queue ∧
  total res ≤ total blocks + room_b queue.
Proof.
  induction fuel as [|fuel IH]; intros queue blocks res.
  { destruct queue as [|[[[alo ahi] blo] bhi] queue]; simpl; [|done].
    intros [= <-]. lia. }
  destruct queue as [|[[[alo ahi] blo] bhi] queue]; simpl.
  { intros [= <-]. lia. }
  pose proof (difflib_facts.find_longest_match_in_window a b alo ahi blo bhi) as Hm.
  destruct (find_longest_match a b alo ahi blo bhi) as [[i j] k].
  unfold block_ok in Hm.
  destruct (Nat.eqb_spec k 0) as [|Hk].
  { intros Hres%IH. lia. }
  intros Hres%IH. rewrite total_app in Hres. cbn [snd] in Hres.
  destruct ((alo <? i) && (blo <? j));
    destruct ((i + k <? ahi) && (j + k <? bhi)); simpl in Hres; lia.
Qed.

Lemma matches_bound :
  total (get_matching_blocks a b) ≤ length a ∧
  total (get_matching_blocks a b) ≤ length b.
Proof.
  pose proof (difflib_facts.get_matching_blocks_terminates a b) as Hloop.
  apply blocks_loop_total in Hloop. simpl in Hloop. lia.
Qed.

Lemma ratio_range : (0 <= ratio a b <= 1)%Q.
Proof.
  unfold ratio, _calculate_ratio. fold (total (get_matching_blocks a b)).
  destruct matches_bound as [Ha Hb].
  destruct (Nat.eqb_spec (length a + length b) 0) as [|Hne]; [done|].
  unfold Qle. cbn [Qnum Qden].
  assert (Z.pos (Pos.of_nat (length a + length b))
          = Z.of_nat (length a + length b)) as ->.
  { rewrite <- positive_nat_Z, Nat2Pos.id; done. }
  lia.
Qed.

End Ratio_range.

(** The fuzzy score of [_best_match] lies between 0 and 1. *)
Theorem score_range clean f :
  (0 <= score clean f)%Q ∧ (score clean f <= 1)%Q.
Proof. apply ratio_range. Qed.

(** ** [query_ai_with_rag] *)

Lemma length_substring m : ∀ s, String.length (String.substring 0 m s) ≤ m.
Proof.
  induction m as [|m IH]; intros [|c s]; simpl; try lia.
  specialize (IH s). lia.
Qed.

Lemma length_substring_exact m : ∀ s,
  m ≤ String.length s → String.length (String.substring 0 m s) = m.
Proof.
  induction m as [|m IH]; intros [|c s]; simpl; try lia.
  intros Hm. rewrite IH; lia.
Qed.

Lemma truncate_context_exact context :
  String.length (truncate_context context)
  = (if MAX_CONTEXT_LENGTH <? String.length context
     then MAX_CONTEXT_LENGTH + 32 else String.length context).
Proof.
  unfold truncate_context.
  destruct (Nat.ltb_spec MAX_CONTEXT_LENGTH (String.length context)); [|done].
  rewrite !length_append, length_substring_exact by lia.
  change (String.length blank_line) with 2.
  change (String.length "[Context truncated for safety]") with 30. lia.
Qed.

Lemma truncate_context_length context :
  String.length (truncate_context context) ≤ MAX_CONTEXT_LENGTH + 32.
Proof.
  unfold truncate_context.
  destruct (Nat.ltb_spec MAX_CONTEXT_LENGTH (String.length context)); [|lia].
  rewrite !length_append.
  pose proof (length_substring MAX_CONTEXT_LENGTH context).
  change (String.length blank_line) with 2.
  change (String.length "[Context truncated for safety]") with 30. lia.
Qed.

Section Rag_facts.

Variable GEMINI_API_KEY : option string.
Variable Summary : Type.
Variable format_context : string → Summary → string.
Variable generate_content : string → string + gemini_response.

(** The answer of [query_ai_with_rag] is coherent on every path.
    Either the flag [context_used] is set, the sources name the
    uploaded data, no error is reported, the response is the text of
    the model's reply to the prompt built from the query and the
    truncated context, and the reported context length is the length
    of that truncated context: the length of the context itself up to
    2000 characters and 2032 beyond. Or the flag is not set, the
    sources are empty and no context length is given. *)
Theorem rag_answer_coherent workspaces query workspace_id :
  let r := query_ai_with_rag GEMINI_API_KEY Summary format_context generate_content
             workspaces query workspace_id in
  (context_used r = true ∧ sources r = ["uploaded_data"] ∧ error r = None ∧
   ∃ context reply,
     get_context Summary format_context workspaces workspace_id query
     = Found context ∧
     generate_content (rag_prompt query (truncate_context context)) = inr reply ∧
     text reply = inr (response r) ∧
     context_length r = Some (String.length (truncate_context context)) ∧
     String.length (truncate_context context)
     = (if MAX_CONTEXT_LENGTH <? String.length context
        then MAX_CONTEXT_LENGTH + 32 else String.length context) ∧
     String.length (truncate_context context) ≤ MAX_CONTEXT_LENGTH + 32) ∨
  (context_used r = false ∧ sources r = [] ∧ context_length r = None).
Proof.
  unfold query_ai_with_rag.
  destruct (no_api_key GEMINI_API_KEY); [by right|].
  destruct (get_context _ _ _ _ _) as [context|key]; [|by right].
  destruct (generate_content _) as [message|reply] eqn:Hreply; [by right|].
  destruct (candidates reply) as [|candidate ?]; [by right|].
  destruct (bool_decide _); [by right|].
  destruct (text reply) as [message|response_text] eqn:Htext; [by right|].
  left. repeat split. exists context, reply. cbn.
  split; [done|]. split; [done|]. split; [done|]. split; [done|].
  split; [apply truncate_context_exact|apply truncate_context_length].
Qed.

(** An answered question counts as answered from uploaded data even
    when the workspace holds none: the context is then the sentence
    that says so, and its length, 37, is reported as context length. *)
Theorem rag_without_data workspaces query workspace_id reply response_text :
  no_api_key GEMINI_API_KEY = false →
  workspaces !! workspace_id = None →
  generate_content (rag_prompt query "No data available for this workspace.")
  = inr reply →
  (∃ candidate rest, candidates reply = candidate :: rest ∧ candidate ≠ Some "SAFETY") →
  text reply = inr response_text →
  query_ai_with_rag GEMINI_API_KEY Summary format_context generate_content
    workspaces query workspace_id =
  {| response := response_text; sources := ["uploaded_data"];
     context_used := true; error := None; context_length := Some 37 |}.
Proof.
  intros Hkey Hws Hgen (candidate & rest & Hcand & Hsafe) Htext.
  unfold query_ai_with_rag, get_context. rewrite Hkey, Hws.
  change (truncate_context "No data available for this workspace.")
    with "No data available for this workspace.".
  rewrite Hgen, Hcand, bool_decide_eq_false_2, Htext by done.
  reflexivity.
Qed.

End Rag_facts.

Lemma rag_without_data_witness :
  query_ai_with_rag (Some "key") nat label_only
    (fun _ => inr {| candidates := [Some "STOP"]; text := inr "42 rows." |})
    ∅ "How many buyers?" 7 =
  {| response := "42 rows."; sources := ["uploaded_data"];
     context_used := true; error := None; context_length := Some 37 |}.
Proof.
  apply (rag_without_data (Some "key") nat label_only
           (fun _ => inr {| candidates := [Some "STOP"]; text := inr "42 rows." |})
           ∅ "How many buyers?" 7
           {| candidates := [Some "STOP"]; text := inr "42 rows." |} "42 rows.").
  - reflexivity.
  - reflexivity.
  - reflexivity.
  - by eexists _, _.
  - reflexivity.
Defined.

(** ** Saved mappings *)

Lemma row_matches_key workspace_id file_type row :
  row_matches workspace_id file_type row = true ↔
  row_key row = (workspace_id, file_type).
Proof.
  unfold row_matches, row_key. rewrite andb_true_iff, !bool_decide_eq_true.
  split; [by intros [-> ->]|by intros [= -> ->]].
Qed.

Lemma find_None_key workspace_id file_type table :
  find (row_matches workspace_id file_type) table = None ↔
  (workspace_id, file_type) ∉ row_key <$> table.
Proof.
  induction table as [|row table IH]; cbn [find fmap list_fmap].
  { split; [intros _; apply not_elem_of_nil|done]. }
  rewrite not_elem_of_cons.
  destruct (row_matches workspace_id file_type row) eqn:E.
  - apply row_matches_key in E. split; [done|]. intros [Hne _]. by destruct Hne.
  - rewrite IH. split; [|tauto]. intros Hnot. split; [|done].
    intros Heq. symmetry in Heq. apply row_matches_key in Heq. congruence.
Qed.

Lemma update_first_keys workspace_id file_type json now table :
  row_key <$> update_first workspace_id file_type json now table = row_key <$> table.
Proof.
  induction table as [|row table IH]; [done|]. cbn [update_first].
  destruct (row_matches workspace_id file_type row); cbn [fmap list_fmap];
    [done|]. by rewrite <- IH.
Qed.

Lemma delete_first_keys workspace_id file_type table :
  NoDup (row_key <$> table) →
  NoDup (row_key <$> delete_first workspace_id file_type table) ∧
  (∀ k, k ∈ row_key <$> delete_first workspace_id file_type table →
        k ∈ row_key <$> table) ∧
  (workspace_id, file_type) ∉ row_key <$> delete_first workspace_id file_type table.
Proof.
  induction table as [|row table IH]; cbn [delete_first fmap list_fmap].
  { intros _. split; [constructor|]. split; [done|apply not_elem_of_nil]. }
  intros [Hnotin Hnd]%NoDup_cons.
  destruct (row_matches workspace_id file_type row) eqn:E.
  - apply row_matches_key in E. split; [done|]. split; [by right|].
    by rewrite <- E.
  - destruct (IH Hnd) as (Hnd' & Hsub & Hgone). cbn [fmap list_fmap].
    split; [apply NoDup_cons; split; [|done]; intros Hin; auto|].
    split.
    + intros k [->|Hk]%elem_of_cons; [left|right; auto].
    + apply not_elem_of_cons. split; [|done].
      intros Heq. symmetry in Heq. apply row_matches_key in Heq. congruence.
Qed.

Section Crud_facts.

Variable Mapping : Type.
Variable json_dumps : Mapping → string.
Variable json_loads : string → Mapping.

(** The table never holds two rows for the same workspace and file
    type, so the row that [first()] picks is the only one. *)
Theorem saved_mappings_unique table :
  table_reachable Mapping json_dumps table → NoDup (row_key <$> table).
Proof.
  induction 1 as [|table wid ft mapping now _ IH|table table' wid ft _ IH Hdel].
  - constructor.
  - unfold save_column_mapping.
    destruct (find (row_matches wid ft) table) eqn:E.
    + by rewrite update_first_keys.
    + rewrite fmap_app. apply NoDup_app. split; [done|]. split.
      * intros k Hk [->|[]%elem_of_nil]%elem_of_cons.
        by apply find_None_key in E.
      * apply NoDup_singleton.
  - unfold delete_mapping in Hdel.
    destruct (find (row_matches wid ft) table); [|done].
    injection Hdel as <-. by apply delete_first_keys.
Qed.

Lemma find_update_first workspace_id file_type json now table :
  is_Some (find (row_matches workspace_id file_type) table) →
  ∃ row, find (row_matches workspace_id file_type)
              (update_first workspace_id file_type json now table) = Some row ∧
         mapping_json row = json.
Proof.
  induction table as [|row table IH]; cbn [find update_first]; [by intros [? ?]|].
  destruct (row_matches workspace_id file_type row) eqn:E.
  - intros _. cbn [find].
    assert (row_matches workspace_id file_type
              {| row_workspace_id := row_workspace_id row;
                 row_file_type := row_file_type row;
                 mapping_json := json; created_at := now |} = true) as -> by done.
    eauto.
  - intros Hsome. cbn [find]. rewrite E. by apply IH.
Qed.

Lemma find_app_None {A} (p : A → bool) l x :
  find p l = None → find p (l ++ [x]) = if p x then Some x else None.
Proof.
  induction l as [|y l IH]; cbn [find app]; [done|].
  destruct (p y); [done|apply IH].
Qed.

(** Save, then read: whatever the table held, the mapping read back is
    the one just saved, so a second save replaces the first as a
    whole. *)
Theorem save_then_get table workspace_id file_type mapping now :
  json_loads (json_dumps mapping) = mapping →
  get_column_mapping Mapping json_loads
    (save_column_mapping Mapping json_dumps table workspace_id file_type mapping now)
    workspace_id file_type
  = Some mapping.
Proof.
  intros Hround. unfold save_column_mapping, get_column_mapping.
  destruct (find (row_matches workspace_id file_type) table) eqn:E.
  - destruct (find_update_first workspace_id file_type (json_dumps mapping) now table)
      as (row & -> & ->); [by rewrite E|]. by rewrite Hround.
  - rewrite find_app_None by done.
    assert (row_matches workspace_id file_type
              {| row_workspace_id := workspace_id; row_file_type := file_type;
                 mapping_json := json_dumps mapping; created_at := now |} = true)
      as ->.
    { unfold row_matches. cbn. by rewrite !bool_decide_eq_true_2. }
    cbn. by rewrite Hround.
Qed.

Lemma find_update_first_other workspace_id file_type json now wid ft table :
  (wid, ft) ≠ (workspace_id, file_type) →
  mapping_json <$> find (row_matches wid ft)
                        (update_first workspace_id file_type json now table)
  = mapping_json <$> find (row_matches wid ft) table.
Proof.
  intros Hne. induction table as [|row table IH]; [done|].
  cbn [update_first find].
  destruct (row_matches workspace_id file_type row) eqn:E.
  - cbn [find].
    assert (row_matches wid ft
              {| row_workspace_id := row_workspace_id row;
                 row_file_type := row_file_type row;
                 mapping_json := json; created_at := now |} = false) as ->.
    { apply row_matches_key in E. apply not_true_is_false.
      intros Hm%row_matches_key. unfold row_key in *. cbn in Hm. congruence. }
    assert (row_matches wid ft row = false) as ->; [|done].
    apply row_matches_key in E. apply not_true_is_false.
    intros Hm%row_matches_key. congruence.
  - cbn [find]. destruct (row_matches wid ft row); [done|apply IH].
Qed.

(** Saving under one workspace and file type leaves what is read under
    every other pair as it was. *)
Theorem save_other_key table workspace_id file_type mapping now wid ft :
  (wid, ft) ≠ (workspace_id, file_type) →
  get_column_mapping Mapping json_loads
    (save_column_mapping Mapping json_dumps table workspace_id file_type mapping now)
    wid ft
  = get_column_mapping Mapping json_loads table wid ft.
Proof.
  intros Hne. unfold save_column_mapping, get_column_mapping.
  destruct (find (row_matches workspace_id file_type) table) eqn:E.
  - pose proof (find_update_first_other workspace_id file_type (json_dumps mapping)
                  now wid ft table Hne) as Hfind.
    destruct (find (row_matches wid ft) (update_first _ _ _ _ table)),
             (find (row_matches wid ft) table); cbn in Hfind; congruence.
  - destruct (find (row_matches wid ft) table) eqn:E'.
    + clear E. induction table as [|row table IH]; [done|].
      cbn [find app] in *. destruct (row_matches wid ft row); [congruence|auto].
    + rewrite find_app_None by done.
      assert (row_matches wid ft
                {| row_workspace_id := workspace_id; row_file_type := file_type;
                   mapping_json := json_dumps mapping; created_at := now |} = false)
        as ->; [|done].
      apply not_true_is_false. intros Hm%row_matches_key.
      unfold row_key in Hm. cbn in Hm. congruence.
Qed.

(** Delete, then read: after [delete_mapping] succeeded nothing is left
    to read under the pair, because the row deleted was the only one
    for it. *)
Theorem delete_then_get table table' workspace_id file_type :
  table_reachable Mapping json_dumps table →
  delete_mapping table workspace_id file_type = Some table' →
  get_column_mapping Mapping json_loads table' workspace_id file_type = None.
Proof.
  intros Hsaved%saved_mappings_unique Hdel. unfold delete_mapping in Hdel.
  destruct (find (row_matches workspace_id file_type) table); [|done].
  injection Hdel as <-. unfold get_column_mapping.
  destruct (delete_first_keys workspace_id file_type table Hsaved) as (_ & _ & Hgone).
  apply find_None_key in Hgone. by rewrite Hgone.
Qed.

End Crud_facts.

Lemma saved_mappings_unique_witness :
  NoDup (row_key <$> save_column_mapping string id
                       (save_column_mapping string id [] 7 "buyers" "{}" 100)
                       7 "buyers" "[]" 200).
Proof.
  apply (saved_mappings_unique string id).
  apply table_save, table_save, table_empty.
Defined.

Lemma save_then_get_witness :
  get_column_mapping string id
    (save_column_mapping string id
       (save_column_mapping string id [] 7 "buyers" "{}" 100) 7 "buyers" "[]" 200)
    7 "buyers"
  = Some "[]".
Proof.
  apply (save_then_get string id id
           (save_column_mapping string id [] 7 "buyers" "{}" 100) 7 "buyers" "[]" 200).
  reflexivity.
Defined.

Lemma save_other_key_witness :
  get_column_mapping string id
    (save_column_mapping string id [] 7 "buyers" "{}" 100) 7 "visitors"
  = get_column_mapping string id [] 7 "visitors".
Proof.
  apply (save_other_key string id id [] 7 "buyers" "{}" 100 7 "visitors").
  done.
Defined.

Lemma delete_then_get_witness :
  get_column_mapping string id [] 7 "buyers" = None.
Proof.
  apply (delete_then_get string id id
           (save_column_mapping string id [] 7 "buyers" "{}" 100) [] 7 "buyers").
  - apply table_save, table_empty.
  - reflexivity.
Defined.

(** The two endpoints count the mapped columns differently: saving
    counts the values that are true, reading the values that are not
    [None]. For a mapping of header to field name or null, the count on
    reading exceeds the count on saving by the number of empty
    strings. *)
Theorem mapped_on_read_and_save (mapping : gmap string pyval) :
  (∀ col v, mapping !! col = Some v → v = PyNone ∨ ∃ s, v = PyStr s) →
  mapped_on_read mapping = mapped_columns mapping + blank_values mapping.
Proof.
  intros Hvalues. unfold mapped_on_read, mapped_columns, blank_values.
  assert (Forall (fun v => v = PyNone ∨ ∃ s, v = PyStr s) (map_to_list mapping).*2)
    as Hall.
  { apply Forall_forall. intros v Hv.
    apply list_elem_of_fmap in Hv as ([col v'] & -> & Hv).
    apply elem_of_map_to_list in Hv. eauto. }
  induction Hall as [|v values Hv _ IH]; [done|].
  destruct Hv as [->|[s ->]].
  - rewrite !filter_cons_False by done. apply IH.
  - destruct (decide (s = EmptyString)) as [->|Hs].
    + rewrite (filter_cons_True (fun v => is_not_none v = true)) by done.
      rewrite (filter_cons_False (fun v => py_truthy v = true)) by done.
      rewrite (filter_cons_True (fun v => is_blank v = true)) by done.
      cbn [length]. rewrite IH. lia.
    + rewrite (filter_cons_True (fun v => is_not_none v = true)) by done.
      rewrite (filter_cons_True (fun v => py_truthy v = true))
        by (cbn; by rewrite bool_decide_eq_false_2).
      rewrite (filter_cons_False (fun v => is_blank v = true))
        by (cbn; by rewrite bool_decide_eq_false_2).
      cbn [length]. rewrite IH. lia.
Qed.

Lemma mapped_on_read_and_save_witness :
  mapped_on_read {[ "a" := PyStr EmptyString; "b" := PyNone; "c" := PyStr "email" ]}
  = mapped_columns {[ "a" := PyStr EmptyString; "b" := PyNone; "c" := PyStr "email" ]}
    + blank_values {[ "a" := PyStr EmptyString; "b" := PyNone; "c" := PyStr "email" ]}.
Proof.
  apply (mapped_on_read_and_save
           {[ "a" := PyStr EmptyString; "b" := PyNone; "c" := PyStr "email" ]}).
  intros col v Hv.
  destruct (decide (col = "a")) as [->|?]; [simplify_map_eq; eauto|].
  destruct (decide (col = "b")) as [->|?]; [simplify_map_eq; eauto|].
  destruct (decide (col = "c")) as [->|?]; [simplify_map_eq; eauto|].
  by simplify_map_eq.
Defined.
